(** * gin-crud-api: the in-memory user store of [main.go]

    A shallow embedding of the handlers of [main.go] and the properties of
    the store they maintain.

    Conventions of the embedding.

    - Go's [int] is the 64-bit two's-complement integer of the usual
      targets; it is a [Z] here and the one arithmetic operation of the
      program, [nextID++], is wrapped by [wrapInt].
    - A Go [string] is a sequence of bytes: a [string] of the Standard
      Library, one [ascii] per byte.
    - The package-level variables [users] and [nextID] form the record
      [Store]; a handler is a function from the request data and the store
      to the new store and the reply written with [c.JSON].
    - [c.Param], [c.Query] hand the handler a string; [c.ShouldBindJSON]
      hands it either an error or a decoded [User]: the body of a request
      is an [option User].
    - Requests are handled one after the other. The handlers take no lock,
      and what interleaved requests do to [users] and [nextID] is outside
      the embedding.
    - The functions of Go's standard library the handlers call
      ([strconv.Atoi], [strings.TrimSpace], [strings.ToLower],
      [strings.Contains], with the UTF-8 decoding and [unicode.IsSpace]
      under them) are written out on bytes. The one thing left open is
      the lowering of strings that are not pure ASCII, which rests on the
      case tables of package [unicode]: it is the field of the record
      [Unicode], over which the development is parametric. *)

From Stdlib Require Import ZArith Ascii String Lia.
From stdpp Require Import base tactics option list sorting strings.

Local Open Scope Z_scope.

(** ** Go's [int] *)

Module GoInt.

Definition intSize : Z := 64.
Definition minInt : Z := - 2 ^ (intSize - 1).
Definition maxInt : Z := 2 ^ (intSize - 1) - 1.

(** The value an [int] computation yields when its mathematical result
    is [z]: reduction modulo [2 ^ intSize] into [minInt .. maxInt]. *)
Definition wrapInt (z : Z) : Z :=
  (z - minInt) mod 2 ^ intSize + minInt.

Definition inRange (z : Z) : Prop := minInt ≤ z ≤ maxInt.

End GoInt.
Export GoInt.

(** ** Go strings and the [strings] and [strconv] functions used *)

Module GoString.

Definition byteVal (c : ascii) : Z := Z.of_N (N_of_ascii c).

(** *** Package [unicode/utf8] *)

(** [utf8.RuneSelf]: bytes below it are the one-byte (ASCII) runes. *)
Definition RuneSelf : Z := 0x80.

(** [utf8.RuneError], the replacement character U+FFFD. *)
Definition RuneError : Z := 0xFFFD.

Definition UTFMax : Z := 4.

(** The tables [first] and [acceptRanges]: for a byte that starts a
    sequence of several bytes, the length of the sequence and the bounds
    of its second byte; [None] for the bytes 0x80..0xC1 and 0xF5..0xFF,
    which start no sequence. *)
Definition leading (b0 : Z) : option (nat * Z * Z) :=
  if b0 <? 0xC2 then None
  else if b0 <=? 0xDF then Some (2%nat, 0x80, 0xBF)
  else if b0 =? 0xE0 then Some (3%nat, 0xA0, 0xBF)
  else if b0 <=? 0xEC then Some (3%nat, 0x80, 0xBF)
  else if b0 =? 0xED then Some (3%nat, 0x80, 0x9F)
  else if b0 <=? 0xEF then Some (3%nat, 0x80, 0xBF)
  else if b0 =? 0xF0 then Some (4%nat, 0x90, 0xBF)
  else if b0 <=? 0xF3 then Some (4%nat, 0x80, 0xBF)
  else if b0 =? 0xF4 then Some (4%nat, 0x80, 0x8F)
  else None.

(** A continuation byte: [locb <= b <= hicb]. *)
Definition continuation (b : Z) : bool := (0x80 <=? b) && (b <=? 0xBF).

(** [utf8.DecodeRuneInString]: the rune at the head of [s] and its width
    in bytes. An ill-formed or truncated sequence gives [RuneError] and
    width 1, the empty string [RuneError] and width 0. The loop
    [for i, r := range s] decodes in the same way. *)
Definition DecodeRuneInString (s : string) : Z * nat :=
  match s with
  | EmptyString => (RuneError, 0%nat)
  | String c0 s1 =>
      let b0 := byteVal c0 in
      if b0 <? RuneSelf then (b0, 1%nat)
      else
        match leading b0, s1 with
        | Some (sz, lo, hi), String c1 s2 =>
            let b1 := byteVal c1 in
            if (String.length s <? sz)%nat then (RuneError, 1%nat)
            else if (b1 <? lo) || (hi <? b1) then (RuneError, 1%nat)
            else if (sz <=? 2)%nat then
              (Z.lor (Z.shiftl (Z.land b0 0x1F) 6) (Z.land b1 0x3F), 2%nat)
            else
              match s2 with
              | String c2 s3 =>
                  let b2 := byteVal c2 in
                  if negb (continuation b2) then (RuneError, 1%nat)
                  else if (sz <=? 3)%nat then
                    (Z.lor (Z.lor (Z.shiftl (Z.land b0 0x0F) 12)
                                  (Z.shiftl (Z.land b1 0x3F) 6))
                           (Z.land b2 0x3F), 3%nat)
                  else
                    match s3 with
                    | String c3 _ =>
                        let b3 := byteVal c3 in
                        if negb (continuation b3) then (RuneError, 1%nat)
                        else
                          (Z.lor (Z.lor (Z.lor (Z.shiftl (Z.land b0 0x07) 18)
                                               (Z.shiftl (Z.land b1 0x3F) 12))
                                        (Z.shiftl (Z.land b2 0x3F) 6))
                                 (Z.land b3 0x3F), 4%nat)
                    | EmptyString => (RuneError, 1%nat)
                    end
              | EmptyString => (RuneError, 1%nat)
              end
        | _, _ => (RuneError, 1%nat)
        end
  end.

(** [utf8.RuneStart]: [b] is not a continuation byte. *)
Definition RuneStart (b : Z) : bool := negb (Z.land b 0xC0 =? 0x80).

(** The loop of [utf8.DecodeLastRuneInString] that walks [start] down to
    [lim], stopping at a byte that may start a rune; [before] holds
    [s[start]], [s[start-1]], ... in this order. *)
Fixpoint runeStartBefore (before : list ascii) (start lim : Z) : Z :=
  if start <? lim then start
  else
    match before with
    | [] => start
    | c :: before' =>
        if RuneStart (byteVal c) then start
        else runeStartBefore before' (start - 1) lim
    end.

(** [s[i:j]] *)
Definition sliceStr (s : string) (i j : Z) : string :=
  substring (Z.to_nat i) (Z.to_nat (j - i)) s.

(** [utf8.DecodeLastRuneInString]: the rune that ends [s] and its width. *)
Definition DecodeLastRuneInString (s : string) : Z * nat :=
  let end_ := Z.of_nat (String.length s) in
  match rev (list_ascii_of_string s) with
  | [] => (RuneError, 0%nat)
  | c :: before =>
      let r := byteVal c in
      if r <? RuneSelf then (r, 1%nat)
      else
        let lim := Z.max 0 (end_ - UTFMax) in
        let start := runeStartBefore before (end_ - 2) lim in
        let start := Z.max 0 start in
        let (r, size) := DecodeRuneInString (sliceStr s start end_) in
        if start + Z.of_nat size =? end_ then (r, size)
        else (RuneError, 1%nat)
  end.

(** *** Package [unicode] *)

(** [unicode.IsSpace]: the Latin-1 white space, and beyond Latin-1 the
    table [White_Space]. *)
Definition IsSpace (r : Z) : bool :=
  if r <=? 0xFF then
    (r =? 9) || (r =? 10) || (r =? 11) || (r =? 12) || (r =? 13) ||
    (r =? 32) || (r =? 0x85) || (r =? 0xA0)
  else
    (r =? 0x1680) || ((0x2000 <=? r) && (r <=? 0x200A)) ||
    (r =? 0x2028) || (r =? 0x2029) || (r =? 0x202F) ||
    (r =? 0x205F) || (r =? 0x3000).

(** What the standard library takes from the case tables of package
    [unicode]: [strings.Map (unicode.ToLower, s)], the lowering of a
    string that is not pure ASCII. The development is parametric in it. *)
Record Unicode := {
  MapToLower : string → string
}.

(** *** Package [strings] *)

(** [strings.TrimLeftFunc (s, unicode.IsSpace)], whose loop
    [for i, r := range s] returns the first index of a rune that is not
    white space; [skip] counts the bytes still to pass of the rune decoded
    last. The empty result stands for the index -1. *)
Fixpoint trimLeftSpace (skip : nat) (s : string) : string :=
  match s with
  | EmptyString => EmptyString
  | String _ s' =>
      match skip with
      | S skip' => trimLeftSpace skip' s'
      | O =>
          let (r, size) := DecodeRuneInString s in
          if IsSpace r then trimLeftSpace (size - 1) s' else s
      end
  end.

(** [lastIndexFunc (s, unicode.IsSpace, false)] from index [i] down: the
    index of the last rune that is not white space, or -1. Every round
    lowers [i] by at least one; [fuel] counts the rounds. *)
Fixpoint lastIndexNotSpace (fuel : nat) (s : string) (i : Z) : Z :=
  match fuel with
  | O => -1
  | S fuel' =>
      if i <=? 0 then -1
      else
        let (r, size) := DecodeLastRuneInString (sliceStr s 0 i) in
        let i := i - Z.of_nat size in
        if negb (IsSpace r) then i else lastIndexNotSpace fuel' s i
  end.

(** [strings.TrimRightFunc (s, unicode.IsSpace)] *)
Definition TrimRightFuncIsSpace (s : string) : string :=
  let n := Z.of_nat (String.length s) in
  let i := lastIndexNotSpace (String.length s) s n in
  let i :=
    match String.get (Z.to_nat i) s with
    | Some c =>
        if (0 <=? i) && (RuneSelf <=? byteVal c)
        then i + Z.of_nat (DecodeRuneInString (sliceStr s i n)).2
        else i + 1
    | None => i + 1
    end in
  sliceStr s 0 i.

(** [strings.TrimFunc (s, unicode.IsSpace)] *)
Definition TrimFuncIsSpace (s : string) : string :=
  TrimRightFuncIsSpace (trimLeftSpace 0 s).

(** The table [asciiSpace] of package [strings]:
    tab, line feed, vertical tab, form feed, carriage return, space. *)
Definition asciiSpace (c : ascii) : bool :=
  let b := byteVal c in
  (b =? 9) || (b =? 10) || (b =? 11) || (b =? 12) || (b =? 13) || (b =? 32).

(** Second loop of [strings.TrimSpace]: [stop] walks down from [len(s)];
    [rs] holds the bytes of [s[start:stop]], the last one first. *)
Fixpoint trimStop (rs : list ascii) : string :=
  match rs with
  | [] => EmptyString
  | c :: rs' =>
      if RuneSelf <=? byteVal c
      then TrimRightFuncIsSpace (string_of_list_ascii (rev rs))
      else if asciiSpace c then trimStop rs'
      else string_of_list_ascii (rev rs)
  end.

(** [strings.TrimSpace]: the first loop advances [start] over ASCII white
    space and leaves to the Unicode-aware [TrimFunc] at the first byte
    that is not ASCII. *)
Fixpoint TrimSpace (s : string) : string :=
  match s with
  | EmptyString => EmptyString
  | String c s' =>
      if RuneSelf <=? byteVal c then TrimFuncIsSpace s
      else if asciiSpace c then TrimSpace s'
      else trimStop (rev (list_ascii_of_string s))
  end.

Definition isUpper (c : ascii) : bool :=
  (65 <=? byteVal c) && (byteVal c <=? 90).

Definition lowerByte (c : ascii) : ascii :=
  if isUpper c then ascii_of_N (N_of_ascii c + 32) else c.

Fixpoint isASCII (s : string) : bool :=
  match s with
  | EmptyString => true
  | String c s' => (byteVal c <? RuneSelf) && isASCII s'
  end.

Fixpoint hasUpper (s : string) : bool :=
  match s with
  | EmptyString => false
  | String c s' => isUpper c || hasUpper s'
  end.

Fixpoint mapBytes (f : ascii → ascii) (s : string) : string :=
  match s with
  | EmptyString => EmptyString
  | String c s' => String (f c) (mapBytes f s')
  end.

(** [strings.ToLower]: ASCII-only strings are lowered byte by byte (and
    returned as they are when they hold no upper-case letter); any other
    string goes through [unicode.ToLower]. *)
Definition ToLower (uni : Unicode) (s : string) : string :=
  if isASCII s then
    if negb (hasUpper s) then s else mapBytes lowerByte s
  else MapToLower uni s.

Fixpoint HasPrefix (s prefix : string) : bool :=
  match prefix, s with
  | EmptyString, _ => true
  | String _ _, EmptyString => false
  | String p prefix', String c s' =>
      if decide (p = c) then HasPrefix s' prefix' else false
  end.

(** [strings.Contains (s, substr)]: [substr] occurs at some offset of [s]. *)
Fixpoint Contains (s substr : string) : bool :=
  HasPrefix s substr ||
  match s with
  | EmptyString => false
  | String _ s' => Contains s' substr
  end.

(** *** Package [strconv] *)

Definition digitVal (c : ascii) : option Z :=
  let d := byteVal c - 48 in
  if (0 <=? d) && (d <=? 9) then Some d else None.

Fixpoint parseDigits (n : Z) (s : string) : option Z :=
  match s with
  | EmptyString => Some n
  | String ch s' =>
      match digitVal ch with
      | Some d => parseDigits (n * 10 + d) s'
      | None => None
      end
  end.

(** [strconv.Atoi]: an optional sign and one or more decimal digits,
    whose value must fit an [int]; [None] stands for a non-nil [err]
    (syntax or range). *)
Definition Atoi (s : string) : option Z :=
  match s with
  | EmptyString => None
  | String c0 rest =>
      let digits :=
        if decide (c0 = "-"%char) then rest
        else if decide (c0 = "+"%char) then rest else s in
      match digits with
      | EmptyString => None
      | String _ _ =>
          match parseDigits 0 digits with
          | None => None
          | Some n =>
              let v := if decide (c0 = "-"%char) then - n else n in
              if (minInt <=? v) && (v <=? maxInt) then Some v else None
          end
      end
  end.

End GoString.
Export GoString.

(** ** The data of [main.go] *)

(** [type User struct] *)
Record User := mkUser {
  ID : Z;
  Name : string;
  Email : string;
  Age : Z
}.

Global Instance User_eq_dec : EqDecision User.
Proof. solve_decision. Defined.

(** A value of type [[]User]: [None] is the nil slice, [Some l] a slice
    with the elements [l] (possibly none). *)
Definition slice := option (list User).

(** [append (s, u)] *)
Definition append1 (s : slice) (u : User) : slice :=
  Some (default [] s ++ [u]).

Definition elems (s : slice) : list User := default [] s.

(** The dynamic values stored in the field [Data interface{}]. *)
Inductive any :=
  | nilAny                      (* the nil interface: [Data] not set *)
  | sliceAny (s : slice)        (* a [[]User] *)
  | userAny (u : User)          (* a [User] *)
  | userPtrAny (u : User).      (* a non-nil [*User], with the struct it points to *)

(** [type Response struct] *)
Record Response := mkResponse {
  Success : bool;
  Data : any;
  Message : string;
  Error : string;
  Code : Z
}.

(** What [c.JSON (status, obj)] writes. *)
Record Reply := mkReply {
  status : Z;
  body : Response
}.

Definition StatusOK : Z := 200.
Definition StatusCreated : Z := 201.
Definition StatusBadRequest : Z := 400.
Definition StatusNotFound : Z := 404.

(** The package-level variables [users] and [nextID]. *)
Record Store := mkStore {
  users : list User;
  nextID : Z
}.

Definition seedUsers : list User :=
  [ mkUser 1 "John Doe" "john@example.com" 30;
    mkUser 2 "Jane Smith" "jane@example.com" 25;
    mkUser 3 "Bob Wilson" "bob@example.com" 35 ].

Definition initialStore : Store := mkStore seedUsers 4.

(** ** The handlers *)

Section Handlers.

Context (uni : Unicode).

(** [findUserByID]: the first index whose user carries [id], with that
    user; [None] is the result [(nil, -1)]. *)
Definition findUserByID (us : list User) (id : Z) : option (nat * User) :=
  list_find (λ u, ID u = id) us.

(** [validateUser]: [None] is the nil error. *)
Definition validateUser (user : User) : option string :=
  if decide (TrimSpace (Name user) = "") then
    Some "name is required"
  else if decide (TrimSpace (Email user) = "") then
    Some "email is required"
  else if negb (Contains (Email user) "@") then
    Some "invalid email format"
  else if (Age user <=? 0) || (150 <? Age user) then
    Some "age must be a positive integer (1-150)"
  else None.

Definition failure (code : Z) (err : string) : Reply :=
  mkReply code (mkResponse false nilAny "" err code).

Definition withID (u : User) (id : Z) : User :=
  mkUser id (Name u) (Email u) (Age u).

(** [GET /users] *)
Definition getAllUsers (st : Store) : Store * Reply :=
  (st, mkReply StatusOK
         (mkResponse true (sliceAny (Some (users st))) "" "" StatusOK)).

(** [GET /users/:id] *)
Definition getUserByID (idStr : string) (st : Store) : Store * Reply :=
  match Atoi idStr with
  | None =>
      (st, failure StatusBadRequest
             "Invalid user ID format. Must be an Integer.")
  | Some id =>
      match findUserByID (users st) id with
      | None => (st, failure StatusNotFound "User not found.")
      | Some (_, user) =>
          (st, mkReply StatusOK
                 (mkResponse true (userPtrAny user) "" "" StatusOK))
      end
  end.

(** [POST /users] *)
Definition createUser (json : option User) (st : Store) : Store * Reply :=
  match json with
  | None =>
      (st, failure StatusBadRequest "Invalid JSON format or missing fields.")
  | Some newUser =>
      match validateUser newUser with
      | Some err => (st, failure StatusBadRequest err)
      | None =>
          let newUser := withID newUser (nextID st) in
          (mkStore (users st ++ [newUser]) (wrapInt (nextID st + 1)),
           mkReply StatusCreated
             (mkResponse true (userAny newUser)
                "User created successfully." "" StatusCreated))
      end
  end.

(** [PUT /users/:id]. The reply reads [users[idx]] back from the list
    just written. [idx] was returned by [findUserByID], so the read is in
    range; [nilAny] stands in the place of the run-time panic of a read out
    of range. *)
Definition updateUser (idStr : string) (json : option User) (st : Store)
  : Store * Reply :=
  match Atoi idStr with
  | None => (st, failure StatusBadRequest "Invalid ID format.")
  | Some id =>
      match findUserByID (users st) id with
      | None => (st, failure StatusNotFound "User not found.")
      | Some (idx, _) =>
          match json with
          | None => (st, failure StatusBadRequest "Invalid JSON format.")
          | Some updatedData =>
              match validateUser updatedData with
              | Some err => (st, failure StatusBadRequest err)
              | None =>
                  let updatedData := withID updatedData id in
                  let users' := <[idx := updatedData]> (users st) in
                  (mkStore users' (nextID st),
                   mkReply StatusOK
                     (mkResponse true
                        (from_option userAny nilAny (users' !! idx))
                        "User updated successfully." "" StatusOK))
              end
          end
      end
  end.

(** [DELETE /users/:id] *)
Definition deleteUser (idStr : string) (st : Store) : Store * Reply :=
  match Atoi idStr with
  | None => (st, failure StatusBadRequest "Invalid ID format.")
  | Some id =>
      match findUserByID (users st) id with
      | None => (st, failure StatusNotFound "User not found.")
      | Some (idx, _) =>
          (mkStore (take idx (users st) ++ drop (S idx) (users st))
                   (nextID st),
           mkReply StatusOK
             (mkResponse true nilAny "User deleted successfully." ""
                StatusOK))
      end
  end.

(** The test of the loop of [searchUsers]. *)
Definition nameMatches (searchNameLower : string) (user : User) : bool :=
  Contains (ToLower uni (Name user)) searchNameLower.

(** The body of the loop of [searchUsers]. *)
Definition collect (searchNameLower : string) (matchingUsers : slice)
    (user : User) : slice :=
  if nameMatches searchNameLower user
  then append1 matchingUsers user
  else matchingUsers.

(** [GET /users/search?name=value]; [c.Query] gives the empty string for
    a missing parameter. [matchingUsers] starts as the nil slice. *)
Definition searchUsers (searchName : string) (st : Store) : Store * Reply :=
  if decide (searchName = "") then
    (st, failure StatusBadRequest
           "Missing 'name' query parameter for search.")
  else
    let searchNameLower := ToLower uni searchName in
    let matchingUsers :=
      foldl (collect searchNameLower) None (users st) in
    (st, mkReply StatusOK
           (mkResponse true (sliceAny matchingUsers) "" "" StatusOK)).

(** The requests the router of [main] dispatches. *)
Inductive Request :=
  | GetAll
  | GetByID (idStr : string)
  | Create (json : option User)
  | Update (idStr : string) (json : option User)
  | Delete (idStr : string)
  | Search (name : string).

Definition handle (req : Request) (st : Store) : Store * Reply :=
  match req with
  | GetAll => getAllUsers st
  | GetByID idStr => getUserByID idStr st
  | Create json => createUser json st
  | Update idStr json => updateUser idStr json st
  | Delete idStr => deleteUser idStr st
  | Search name => searchUsers name st
  end.

(** The identifier a reply announces as newly assigned: the [id] of the
    user in a [201 Created] reply. *)
Definition assignedID (r : Reply) : option Z :=
  if decide (status r = StatusCreated) then
    match Data (body r) with
    | userAny u => Some (ID u)
    | _ => None
    end
  else None.

(** [reachable h st]: the store [st] is reached from the initial one by
    some sequence of requests, and [h] lists the identifiers assigned on
    the way, the latest first. *)
Inductive reachable : list Z → Store → Prop :=
  | reachable_init : reachable [] initialStore
  | reachable_step h st req :
      reachable h st →
      reachable (option_list (assignedID (handle req st).2) ++ h)
                (handle req st).1.

Definition ids (st : Store) : list Z := ID <$> users st.

End Handlers.

(** ** Rendering of the [data] field *)

(** The JSON value of [Data], as far as its shape goes. *)
Inductive jsonValue :=
  | jsonNull
  | jsonArray (l : list User)
  | jsonObject (u : User).

(** [encoding/json] on the field [Data interface{}] tagged
    [json:"data,omitempty"]: the field is left out ([None]) only when the
    interface itself is nil; an interface holding a nil slice is not
    empty and is written as [null]. *)
Definition encodeData (d : any) : option jsonValue :=
  match d with
  | nilAny => None
  | sliceAny None => Some jsonNull
  | sliceAny (Some l) => Some (jsonArray l)
  | userAny u => Some (jsonObject u)
  | userPtrAny u => Some (jsonObject u)
  end.

(** A table-free instance, for running the handlers on ASCII inputs. *)
Definition asciiOnly : Unicode := {| MapToLower := λ s, s |}.

(** ** Definitions used to state the properties *)

(** The identifier handed to the [k]-th user created since start-up
    (counting from 0): [nextID] starts at 4 and is incremented once per
    creation. *)
Definition serial (k : nat) : Z := wrapInt (4 + Z.of_nat k).

(** The identifiers assigned by the first [n] creations, the latest first. *)
Fixpoint history (n : nat) : list Z :=
  match n with
  | O => []
  | S n' => serial n' :: history n'
  end.

Definition digitChar (d : Z) : ascii := ascii_of_N (Z.to_N (48 + d)).

(** The decimal digits of [n ≥ 0] in front of [tail]; [fuel] bounds the
    number of digits written. *)
Fixpoint numeral (fuel : nat) (n : Z) (tail : string) : string :=
  match fuel with
  | O => tail
  | S fuel' =>
      if n <? 10 then String (digitChar n) tail
      else numeral fuel' (n / 10) (String (digitChar (n mod 10)) tail)
  end.

(** The decimal numeral of an [int], as a client writes it in the path
    [/users/:id]. *)
Definition decimal (z : Z) : string :=
  if z <? 0 then String "-"%char (numeral 20 (- z) "") else numeral 20 z "".

(** Every rune of [s] from its [skip]-th byte on, decoded as Go decodes
    it, is white space in the sense of [unicode.IsSpace]. *)
Fixpoint blankFrom (skip : nat) (s : string) : bool :=
  match s with
  | EmptyString => true
  | String _ s' =>
      match skip with
      | S skip' => blankFrom skip' s'
      | O =>
          let (r, size) := DecodeRuneInString s in
          IsSpace r && blankFrom (size - 1) s'
      end
  end.

(** A string made of white space only (the empty string included). *)
Definition blank (s : string) : bool := blankFrom 0 s.

(** No stored user carries the identifier [id]. *)
Definition absent (id : Z) (st : Store) : Prop :=
  ∀ u, u ∈ users st → ID u ≠ id.

(** The payloads [validateUser] turns down, condition by condition: a
    name that is empty or white space only, an email that is empty or
    white space only, or holds no ["@"], an age outside 1..150. *)
Definition invalid (u : User) : Prop :=
  blank (Name u) = true ∨ blank (Email u) = true ∨
  Contains (Email u) "@" = false ∨ Age u < 1 ∨ 150 < Age u.

(** Invalid payloads when the fields are taken as they come, without
    trimming: an empty name, an empty email or one without ["@"], an age
    outside 1..150. *)
Definition invalidUntrimmed (u : User) : Prop :=
  Name u = "" ∨ Email u = "" ∨ Contains (Email u) "@" = false ∨
  Age u < 1 ∨ 150 < Age u.

(** The users a reply carries in its field [Data]: the elements of the
    slice, none when the field holds no slice. *)
Definition returned (r : Reply) : list User :=
  match Data (body r) with
  | sliceAny s => elems s
  | _ => []
  end.

(** The reply [200 OK] carrying [d]. *)
Definition okData (d : any) : Reply :=
  mkReply StatusOK (mkResponse true d "" "" StatusOK).

(** What holds of the store once [n] users have been created: the counter
    has been incremented [n] times, and the identifiers in the list are the
    [int] values of distinct integers between 1 and [4 + n - 1] (the
    seeded 1, 2, 3 and the values the counter has taken). *)
Definition storeInv (n : nat) (st : Store) : Prop :=
  nextID st = serial n ∧
  ∃ ks : list Z,
    ids st = wrapInt <$> ks ∧ NoDup ks ∧
    Forall (λ k, 1 ≤ k < 4 + Z.of_nat n) ks.

(** A payload that passes validation, used to drive the store. *)
Definition somePayload : User := mkUser 0 "Ann" "ann@example.com" 41.

(** The store after [POST /users] with [somePayload] on the initial
    store. *)
Definition storeWithAnn : Store :=
  mkStore (seedUsers ++ [mkUser 4 "Ann" "ann@example.com" 41]) 5.

(** A payload whose name is a single space. *)
Definition spacePayload : User := mkUser 0 " " "sp@example.com" 30.

(** A payload whose name is a tab, a no-break space (U+00A0) and an
    ideographic space (U+3000), in UTF-8. *)
Definition blankPayload : User :=
  mkUser 0
    (String "009" (String "194" (String "160"
       (String "227" (String "128" (String "128" EmptyString))))))
    "bl@example.com" 30.

(** A payload without a name. *)
Definition namelessPayload : User := mkUser 0 "" "nn@example.com" 30.

(** The user [findUserByID] points to, without its index. *)
Definition found (id : Z) (us : list User) : option User :=
  snd <$> findUserByID us id.

(** What [validateUser] lets through, field by field. *)
Definition wellFormed (u : User) : Prop :=
  blank (Name u) = false ∧ blank (Email u) = false ∧
  Contains (Email u) "@" = true ∧ 1 ≤ Age u ≤ 150.

(** The requests that read the store: the three [GET] routes. *)
Definition isRead (req : Request) : bool :=
  match req with
  | GetAll | GetByID _ | Search _ => true
  | Create _ | Update _ _ | Delete _ => false
  end.

Definition isDelete (req : Request) : bool :=
  match req with
  | Delete _ => true
  | _ => false
  end.

(** The two shapes of a reply: a success (200 or 201) flagged [true] with
    no error text, or a failure (400 or 404) flagged [false] with an error
    text, no message and no data; in both the field [Code] repeats the
    HTTP status. *)
Definition envelope (r : Reply) : Prop :=
  Code (body r) = status r ∧
  (((status r = StatusOK ∨ status r = StatusCreated) ∧
    Success (body r) = true ∧ Error (body r) = "") ∨
   ((status r = StatusBadRequest ∨ status r = StatusNotFound) ∧
    Success (body r) = false ∧ Error (body r) ≠ "" ∧
    Message (body r) = "" ∧ Data (body r) = nilAny)).

(** The validation message for a payload, check by check in the order of
    [validateUser]. *)
Definition firstComplaint (u : User) : option string :=
  if blank (Name u) then Some "name is required"
  else if blank (Email u) then Some "email is required"
  else if negb (Contains (Email u) "@") then Some "invalid email format"
  else if (Age u <? 1) || (150 <? Age u)
       then Some "age must be a positive integer (1-150)"
  else None.

(** A decimal digit, [0] to [9]. *)
Definition isDigit (c : ascii) : bool :=
  (48 <=? byteVal c) && (byteVal c <=? 57).

Fixpoint allDigits (s : string) : bool :=
  match s with
  | EmptyString => true
  | String c s' => isDigit c && allDigits s'
  end.

(** One or more decimal digits. *)
Definition digitString (s : string) : bool :=
  match s with
  | EmptyString => false
  | String _ _ => allDigits s
  end.

(** The number a string of digits denotes in positional notation, the
    most significant digit first. *)
Fixpoint positional (s : string) : Z :=
  match s with
  | EmptyString => 0
  | String c s' =>
      (byteVal c - 48) * 10 ^ Z.of_nat (String.length s') + positional s'
  end.

(** A syntactically valid integer, as a client may write one in the path
    [/users/:id]: an optional sign followed by one or more decimal digits.
    [integerSyntax s] is the integer [s] denotes, of any size; [None] when
    [s] is not of that form. *)
Definition integerSyntax (s : string) : option Z :=
  match s with
  | EmptyString => None
  | String c rest =>
      if decide (c = "-"%char) then
        if digitString rest then Some (- positional rest) else None
      else if decide (c = "+"%char) then
        if digitString rest then Some (positional rest) else None
      else
        if digitString s then Some (positional s) else None
  end.

(** ** Integers and numerals *)

Section Integers.

Lemma wrapInt_inRange z : inRange z → wrapInt z = z.
Proof.
  unfold inRange, wrapInt, minInt, maxInt, intSize. intros Hz.
  rewrite Z.mod_small; lia.
Qed.

Lemma wrapInt_succ z : wrapInt (wrapInt z + 1) = wrapInt (z + 1).
Proof.
  unfold wrapInt.
  replace ((z - minInt) mod 2 ^ intSize + minInt + 1 - minInt)
    with ((z - minInt) mod 2 ^ intSize + 1) by lia.
  replace (z + 1 - minInt) with (z - minInt + 1) by lia.
  by rewrite Zplus_mod_idemp_l.
Qed.

(** [wrapInt] is one-to-one on any window of [2 ^ intSize] integers. *)
Lemma wrapInt_inj_window a x y :
  a ≤ x < a + 2 ^ intSize → a ≤ y < a + 2 ^ intSize →
  wrapInt x = wrapInt y → x = y.
Proof.
  unfold wrapInt, minInt, intSize. intros Hx Hy Heq.
  assert (Hm : (x - - 2 ^ (64 - 1)) mod 2 ^ 64 = (y - - 2 ^ (64 - 1)) mod 2 ^ 64)
    by lia.
  clear Heq.
  pose proof (Z.div_mod (x - - 2 ^ (64 - 1)) (2 ^ 64) ltac:(lia)) as Dx.
  pose proof (Z.div_mod (y - - 2 ^ (64 - 1)) (2 ^ 64) ltac:(lia)) as Dy.
  rewrite Hm in Dx. lia.
Qed.

Lemma digitVal_digitChar d : 0 ≤ d ≤ 9 → digitVal (digitChar d) = Some d.
Proof.
  intros Hd.
  assert (d = 0 ∨ d = 1 ∨ d = 2 ∨ d = 3 ∨ d = 4 ∨
          d = 5 ∨ d = 6 ∨ d = 7 ∨ d = 8 ∨ d = 9) as Hcases by lia.
  repeat destruct Hcases as [-> | Hcases]; try subst d; reflexivity.
Qed.

Lemma parseDigits_numeral fuel : ∀ n tail,
  0 ≤ n < 10 ^ Z.of_nat fuel →
  parseDigits 0 (numeral fuel n tail) = parseDigits n tail.
Proof.
  induction fuel as [|fuel IH]; intros n tail Hn.
  - simpl in *. by replace n with 0 by lia.
  - cbn [numeral]. destruct (Z.ltb_spec n 10) as [Hlt | Hge].
    + cbn [parseDigits]. rewrite digitVal_digitChar by lia. f_equal.
    + rewrite IH.
      * cbn [parseDigits].
        rewrite digitVal_digitChar by (pose proof (Z.mod_pos_bound n 10); lia).
        f_equal. pose proof (Z.div_mod n 10). lia.
      * rewrite Nat2Z.inj_succ, Z.pow_succ_r in Hn by lia.
        split; [apply Z.div_pos; lia | apply Z.div_lt_upper_bound; lia].
Qed.

(** A numeral starts with a digit, never with a sign. *)
Lemma numeral_head fuel : ∀ n tail, 0 ≤ n →
  ∃ c s, numeral (S fuel) n tail = String c s ∧ is_Some (digitVal c).
Proof.
  induction fuel as [|fuel IH]; intros n tail Hn; cbn [numeral].
  - destruct (Z.ltb_spec n 10).
    + eexists _, _. split; [done|]. rewrite digitVal_digitChar; [done | lia].
    + eexists _, _. split; [done|].
      rewrite digitVal_digitChar; [done |]. pose proof (Z.mod_pos_bound n 10). lia.
  - destruct (Z.ltb_spec n 10).
    + eexists _, _. split; [done|]. rewrite digitVal_digitChar; [done | lia].
    + apply (IH (n / 10)). apply Z.div_pos; lia.
Qed.

(** [strconv.Atoi] reads every [int] back from its decimal numeral. *)
Lemma Atoi_decimal z : inRange z → Atoi (decimal z) = Some z.
Proof.
  unfold inRange, minInt, maxInt, intSize. intros Hz. unfold decimal.
  destruct (Z.ltb_spec z 0) as [Hneg | Hpos].
  - destruct (numeral_head 19 (- z) "" ltac:(lia)) as (c & s & Hs & _).
    unfold Atoi. rewrite decide_True by done. rewrite Hs, <- Hs.
    rewrite parseDigits_numeral by (simpl; lia). cbn [parseDigits].
    rewrite decide_True by done.
    unfold minInt, maxInt, intSize.
    destruct (Z.leb_spec (- 2 ^ (64 - 1)) (- - z)); [|lia].
    destruct (Z.leb_spec (- - z) (2 ^ (64 - 1) - 1)); [|lia].
    simpl. f_equal. lia.
  - destruct (numeral_head 19 z "" ltac:(lia)) as (c & s & Hs & [d Hd]).
    unfold Atoi. rewrite Hs.
    assert (c ≠ "-"%char) as Hm by (intros ->; discriminate).
    assert (c ≠ "+"%char) as Hp by (intros ->; discriminate).
    rewrite !decide_False by done. rewrite <- Hs.
    rewrite parseDigits_numeral by (simpl; lia). cbn [parseDigits].
    rewrite decide_False by done.
    unfold minInt, maxInt, intSize.
    destruct (Z.leb_spec (- 2 ^ (64 - 1)) z); [|lia].
    destruct (Z.leb_spec z (2 ^ (64 - 1) - 1)); [|lia].
    done.
Qed.

(** [parseDigits] accepts the strings of digits and computes their
    positional value on top of the digits read so far. *)
Lemma parseDigits_positional s : ∀ n,
  parseDigits n s
  = if allDigits s
    then Some (n * 10 ^ Z.of_nat (String.length s) + positional s)
    else None.
Proof.
  induction s as [|c s IH]; intros n.
  - simpl. f_equal. lia.
  - cbn [parseDigits allDigits positional String.length].
    unfold digitVal, isDigit.
    destruct (Z.leb_spec 0 (byteVal c - 48)), (Z.leb_spec (byteVal c - 48) 9),
      (Z.leb_spec 48 (byteVal c)), (Z.leb_spec (byteVal c) 57);
      try lia; try done.
    cbn [andb]. rewrite IH. destruct (allDigits s); [|done]. f_equal.
    rewrite Nat2Z.inj_succ, Z.pow_succ_r by lia. ring.
Qed.

(** [strconv.Atoi] accepts exactly the syntactically valid integers whose
    value fits an [int], and returns that value. *)
Lemma Atoi_integerSyntax s :
  Atoi s
  = match integerSyntax s with
    | Some v => if (minInt <=? v) && (v <=? maxInt) then Some v else None
    | None => None
    end.
Proof.
  unfold Atoi, integerSyntax. destruct s as [|c rest]; [done|].
  destruct (decide (c = "-"%char)) as [Hm | Hm].
  - destruct rest as [|c' rest']; [done|]. rewrite parseDigits_positional.
    unfold digitString. destruct (allDigits (String c' rest')); [|done].
    by rewrite Z.mul_0_l, Z.add_0_l.
  - destruct (decide (c = "+"%char)) as [Hp | Hp].
    + destruct rest as [|c' rest']; [done|]. rewrite parseDigits_positional.
      unfold digitString. destruct (allDigits (String c' rest')); [|done].
      by rewrite Z.mul_0_l, Z.add_0_l.
    + rewrite parseDigits_positional.
      unfold digitString. destruct (allDigits (String c rest)); [|done].
      by rewrite Z.mul_0_l, Z.add_0_l.
Qed.

Lemma Atoi_inRange s v :
  integerSyntax s = Some v → inRange v → Atoi s = Some v.
Proof.
  intros Hs [Hlo Hhi]. rewrite Atoi_integerSyntax, Hs.
  destruct (Z.leb_spec minInt v), (Z.leb_spec v maxInt); (done || lia).
Qed.

Lemma Atoi_outOfRange s v :
  integerSyntax s = Some v → ¬ inRange v → Atoi s = None.
Proof.
  intros Hs Hout. rewrite Atoi_integerSyntax, Hs. unfold inRange in Hout.
  destruct (Z.leb_spec minInt v), (Z.leb_spec v maxInt); (done || lia).
Qed.

End Integers.

(** ** Strings *)

Section Strings.

Example Atoi_examples :
  Atoi "42" = Some 42 ∧ Atoi "-7" = Some (-7) ∧ Atoi "+7" = Some 7 ∧
  Atoi "" = None ∧ Atoi "-" = None ∧ Atoi "4x" = None ∧ Atoi " 4" = None ∧
  Atoi "9223372036854775807" = Some maxInt ∧
  Atoi "9223372036854775808" = None ∧
  Atoi "-9223372036854775808" = Some minInt.
Proof. by split_and!. Qed.

Example TrimSpace_examples :
  TrimSpace "  Ann Lee  " = "Ann Lee" ∧
  TrimSpace (String "009" (String "010" " ")) = "" ∧
  TrimSpace (Name blankPayload) = "" ∧
  TrimSpace (" x" +:+ Name blankPayload) = "x" ∧
  TrimSpace (String "160" " ") = String "160" "".
Proof. by split_and!. Qed.

Example ToLower_examples uni :
  ToLower uni "John DOE 9" = "john doe 9" ∧ ToLower uni "bob" = "bob" ∧
  ToLower uni "" = "".
Proof. by split_and!. Qed.

Example Contains_examples :
  Contains "john doe" "n d" = true ∧ Contains "john doe" "" = true ∧
  Contains "john doe" "doe!" = false ∧ Contains "a@b" "@" = true ∧
  Contains "" "@" = false.
Proof. by split_and!. Qed.

Lemma HasPrefix_spec prefix : ∀ s,
  HasPrefix s prefix = true ↔ ∃ post, s = prefix +:+ post.
Proof.
  induction prefix as [|p prefix IH]; intros s.
  - split; [intros _; by exists s | by destruct s].
  - destruct s as [|c s]; cbn [HasPrefix].
    + split; [done | intros [post Hpost]; discriminate].
    + destruct (decide (p = c)) as [-> | Hne].
      * rewrite IH. split; intros [post Hpost]; exists post.
        -- by rewrite Hpost.
        -- by injection Hpost.
      * split; [done | intros [post Hpost]]. injection Hpost as ? ?. congruence.
Qed.

(** [Contains] decides the occurrence of [substr] as a substring. *)
Lemma Contains_spec substr : ∀ s,
  Contains s substr = true ↔ ∃ pre post, s = pre +:+ substr +:+ post.
Proof.
  induction s as [|c s IH]; cbn [Contains]; rewrite orb_true_iff, HasPrefix_spec.
  - split.
    + intros [[post Hpost] | ?]; [|done]. by exists "", post.
    + intros (pre & post & Hs). left. exists post.
      destruct pre; [done | discriminate].
  - rewrite IH. split.
    + intros [[post Hpost] | (pre & post & Hs)].
      * by exists "", post.
      * exists (String c pre), post. by rewrite Hs.
    + intros (pre & post & Hs). destruct pre as [|c' pre].
      * left. by exists post.
      * right. injection Hs as _ Hs. by exists pre, post.
Qed.

Lemma trimLeftSpace_blank s : ∀ skip,
  blankFrom skip s = true → trimLeftSpace skip s = "".
Proof.
  induction s as [|c s IH]; intros skip; [done|]. cbn [blankFrom trimLeftSpace].
  destruct skip as [|skip]; [|apply IH].
  destruct (DecodeRuneInString (String c s)) as [r size].
  intros [-> Hrest]%andb_true_iff. by apply IH.
Qed.

Lemma TrimFuncIsSpace_blank s : blank s = true → TrimFuncIsSpace s = "".
Proof.
  intros Hs. unfold TrimFuncIsSpace. by rewrite trimLeftSpace_blank.
Qed.

(** On ASCII bytes [unicode.IsSpace] and the table [asciiSpace] agree. *)
Lemma IsSpace_ascii c :
  byteVal c < RuneSelf → IsSpace (byteVal c) = asciiSpace c.
Proof.
  unfold RuneSelf, IsSpace, asciiSpace. intros Hc.
  destruct (Z.leb_spec (byteVal c) 255); [|lia].
  destruct (Z.eqb_spec (byteVal c) 133); [lia|].
  destruct (Z.eqb_spec (byteVal c) 160); [lia|].
  by rewrite !orb_false_r.
Qed.

(** [strings.TrimSpace] leaves nothing of a blank string. *)
Lemma TrimSpace_blank s : blank s = true → TrimSpace s = "".
Proof.
  induction s as [|c s IH]; [done|]. intros Hblank. cbn [TrimSpace].
  destruct (Z.leb_spec RuneSelf (byteVal c)) as [Hhigh | Hlow].
  - by apply TrimFuncIsSpace_blank.
  - unfold blank in Hblank. cbn [blankFrom DecodeRuneInString] in Hblank.
    apply Z.ltb_lt in Hlow as Hlow'. rewrite Hlow' in Hblank.
    apply andb_true_iff in Hblank as [Hc Hs].
    rewrite IsSpace_ascii in Hc by done. rewrite Hc. by apply IH.
Qed.

Lemma IsSpace_RuneError : IsSpace RuneError = false.
Proof. reflexivity. Qed.

(** A rune decoded from a non-empty string is at least one byte wide. *)
Lemma DecodeRuneInString_width c s :
  (1 ≤ (DecodeRuneInString (String c s)).2 ≤ 4)%nat.
Proof.
  unfold DecodeRuneInString.
  repeat (case_match; cbn [snd]; try lia).
Qed.

Lemma app_String c s r : String c s +:+ r = String c (s +:+ r).
Proof. done. Qed.

Lemma app_Empty r : "" +:+ r = r.
Proof. done. Qed.

Lemma strlen_app a b :
  String.length (a +:+ b) = (String.length a + String.length b)%nat.
Proof. induction a as [|c a IH]; [done|]. rewrite app_String. simpl. lia. Qed.

(** A white-space rune decoded from the whole of [p] is decoded from every
    string that starts with [p]. *)
Lemma DecodeRuneInString_app p rest r :
  DecodeRuneInString p = (r, String.length p) →
  IsSpace r = true →
  DecodeRuneInString (p +:+ rest) = (r, String.length p).
Proof.
  intros Hdec Hsp.
  assert (r ≠ RuneError) as Hr by (intros ->; discriminate).
  destruct p as [|c0 [|c1 [|c2 [|c3 p]]]]; unfold DecodeRuneInString in *;
    rewrite ?app_String, ?app_Empty; cbn [String.length] in *.
  - congruence.
  - destruct (byteVal c0 <? RuneSelf); [done|].
    destruct (leading (byteVal c0)) as [[[??]?]|]; congruence.
  - destruct (byteVal c0 <? RuneSelf); [done|].
    destruct (leading (byteVal c0)) as [[[sz ?]?]|]; [|congruence].
    destruct (Nat.ltb_spec 2 sz), (Nat.ltb_spec (S (S (String.length rest))) sz);
      try lia; try congruence.
    repeat (case_match; try congruence).
  - destruct (byteVal c0 <? RuneSelf); [done|].
    destruct (leading (byteVal c0)) as [[[sz ?]?]|]; [|congruence].
    destruct (Nat.ltb_spec 3 sz), (Nat.ltb_spec (S (S (S (String.length rest)))) sz);
      try lia; try congruence.
    repeat (case_match; try congruence).
  - destruct (byteVal c0 <? RuneSelf); [done|].
    destruct (leading (byteVal c0)) as [[[sz ?]?]|]; [|congruence].
    destruct (Nat.ltb_spec (S (S (S (S (String.length p))))) sz),
      (Nat.ltb_spec (S (S (S (S (String.length (p +:+ rest)))))) sz);
      try congruence; rewrite strlen_app in *; lia.
Qed.

(** The first [i] bytes of [x], for [i] within [x]. *)
Lemma sliceStr_prefix x (i : nat) :
  (i ≤ String.length x)%nat →
  ∃ rest, x = sliceStr x 0 (Z.of_nat i) +:+ rest ∧
          String.length (sliceStr x 0 (Z.of_nat i)) = i.
Proof.
  unfold sliceStr. rewrite Z.sub_0_r, Nat2Z.id. change (Z.to_nat 0) with 0%nat.
  revert i. induction x as [|c x IH]; intros [|i] Hi; simpl in *; try lia.
  - by exists "".
  - by exists (String c x).
  - destruct (IH i ltac:(lia)) as (rest & Hx & Hlen). exists rest.
    rewrite app_String, <- Hx, Hlen. done.
Qed.

Lemma sliceStr_all x : sliceStr x 0 (Z.of_nat (String.length x)) = x.
Proof.
  unfold sliceStr. rewrite Z.sub_0_r, Nat2Z.id. change (Z.to_nat 0) with 0%nat.
  induction x as [|c x IH]; simpl; congruence.
Qed.

Lemma runeStartBefore_le before : ∀ start lim,
  runeStartBefore before start lim ≤ start.
Proof.
  induction before as [|c before IH]; intros start lim; cbn [runeStartBefore].
  - by destruct (start <? lim).
  - destruct (start <? lim); [done|].
    destruct (RuneStart (byteVal c)); [done|]. specialize (IH (start - 1) lim). lia.
Qed.

Lemma rev_bytes_nil s : rev (list_ascii_of_string s) = [] → s = "".
Proof.
  destruct s as [|c s]; [done|]. simpl. intros H.
  apply (f_equal length) in H. rewrite length_app in H. simpl in H. lia.
Qed.

(** [DecodeLastRuneInString] on a non-empty string: the width is between 1
    and the length; and a white-space rune as wide as the whole string is
    the rune [DecodeRuneInString] finds. *)
Lemma DecodeLastRuneInString_spec p r size :
  p ≠ "" →
  DecodeLastRuneInString p = (r, size) →
  (1 ≤ size ≤ String.length p)%nat ∧
  (size = String.length p → IsSpace r = true →
   DecodeRuneInString p = (r, size)).
Proof.
  intros Hp. unfold DecodeLastRuneInString.
  destruct (rev (list_ascii_of_string p)) as [|c before] eqn:Hrev.
  { by apply rev_bytes_nil in Hrev. }
  assert (1 ≤ String.length p)%nat as Hlen by (destruct p; [done | simpl; lia]).
  destruct (byteVal c <? RuneSelf) eqn:Hc.
  - intros [= <- <-]. split; [lia|]. intros Hone _.
    destruct p as [|c0 [|??]]; simpl in Hone; try lia.
    simpl in Hrev. injection Hrev as ->. unfold DecodeRuneInString. by rewrite Hc.
  - set (end_ := Z.of_nat (String.length p)).
    set (start := Z.max 0 (runeStartBefore before (end_ - 2) (Z.max 0 (end_ - UTFMax)))).
    assert (0 ≤ start < end_) as Hstart.
    { subst start end_.
      pose proof (runeStartBefore_le before (Z.of_nat (String.length p) - 2)
                    (0 `max` (Z.of_nat (String.length p) - UTFMax))). lia. }
    destruct (DecodeRuneInString (sliceStr p start end_)) as [r' size'] eqn:Hdec.
    destruct (Z.eqb_spec (start + Z.of_nat size') end_) as [Heq | Hne].
    + intros [= <- <-]. split; [subst end_; lia|].
      intros Hsz _. assert (start = 0) as Hzero by (subst end_; lia).
      rewrite Hzero in Hdec. subst end_. by rewrite sliceStr_all in Hdec.
    + intros [= <- <-]. split; [lia|]. intros _. by rewrite IsSpace_RuneError.
Qed.

(** Walking back from index [i] over a string whose first rune is not
    white space, the search for a rune that is not white space succeeds. *)
Lemma lastIndexNotSpace_found x :
  IsSpace (DecodeRuneInString x).1 = false →
  ∀ fuel (i : nat),
    (1 ≤ i ≤ String.length x)%nat → (i ≤ fuel)%nat →
    0 ≤ lastIndexNotSpace fuel x (Z.of_nat i) < Z.of_nat i.
Proof.
  intros Hfirst. induction fuel as [|fuel IH]; intros i Hi Hfuel; [lia|].
  cbn [lastIndexNotSpace]. destruct (Z.leb_spec (Z.of_nat i) 0); [lia|].
  destruct (sliceStr_prefix x i ltac:(lia)) as (rest & Hx & Hlen).
  set (p := sliceStr x 0 (Z.of_nat i)) in *.
  assert (p ≠ "") as Hp by (intros Hp; rewrite Hp in Hlen; simpl in Hlen; lia).
  destruct (DecodeLastRuneInString p) as [r size] eqn:Hlast.
  destruct (DecodeLastRuneInString_spec p r size Hp Hlast) as [Hsize Hwhole].
  rewrite Hlen in Hsize.
  destruct (IsSpace r) eqn:Hr; cbn [negb]; [|lia].
  destruct (decide (size = i)) as [Heq | Hne].
  - assert (size = String.length p) as Hsz by congruence.
    specialize (Hwhole Hsz eq_refl). rewrite Hsz in Hwhole.
    apply (DecodeRuneInString_app p rest) in Hwhole; [|done].
    rewrite <- Hx in Hwhole. rewrite Hwhole in Hfirst. simpl in Hfirst. congruence.
  - replace (Z.of_nat i - Z.of_nat size) with (Z.of_nat (i - size)) by lia.
    specialize (IH (i - size)%nat ltac:(lia) ltac:(lia)). lia.
Qed.

Lemma get_sliceStr x (i : nat) c :
  String.get i x = Some c →
  ∃ s, sliceStr x (Z.of_nat i) (Z.of_nat (String.length x)) = String c s.
Proof.
  unfold sliceStr. rewrite Nat2Z.id.
  replace (Z.to_nat (Z.of_nat (String.length x) - Z.of_nat i))
    with (String.length x - i)%nat by lia.
  revert i. induction x as [|c0 x IH]; intros i; [done|].
  destruct i as [|i]; simpl.
  - intros [= ->]. eauto.
  - intros Hget. by apply IH.
Qed.

(** [TrimRightFunc] leaves something of a string whose first rune is not
    white space. *)
Lemma TrimRightFuncIsSpace_nonempty x :
  x ≠ "" →
  IsSpace (DecodeRuneInString x).1 = false →
  TrimRightFuncIsSpace x ≠ "".
Proof.
  intros Hx Hfirst. unfold TrimRightFuncIsSpace.
  assert (1 ≤ String.length x)%nat as Hlen by (destruct x; [done | simpl; lia]).
  pose proof (lastIndexNotSpace_found x Hfirst (String.length x) (String.length x)
                ltac:(lia) ltac:(lia)) as Hi.
  set (i := lastIndexNotSpace _ _ _) in *.
  assert (∀ j, 1 ≤ j → sliceStr x 0 j ≠ "") as Hslice.
  { intros j Hj. unfold sliceStr. rewrite Z.sub_0_r.
    destruct (Z.to_nat j) as [|n] eqn:Hn; [lia|]. by destruct x. }
  apply Hslice.
  destruct (String.get (Z.to_nat i) x) as [c|] eqn:Hget; [|lia].
  destruct ((0 <=? i) && (RuneSelf <=? byteVal c)); [|lia].
  destruct (get_sliceStr x (Z.to_nat i) c Hget) as [s Hs].
  rewrite Z2Nat.id in Hs by lia. rewrite Hs.
  pose proof (DecodeRuneInString_width c s). lia.
Qed.

(** What [TrimLeftFunc] returns: nothing, of a blank string; or a string
    whose first rune is not white space. *)
Lemma trimLeftSpace_result s : ∀ skip,
  (trimLeftSpace skip s = "" ∧ blankFrom skip s = true) ∨
  (trimLeftSpace skip s ≠ "" ∧
   IsSpace (DecodeRuneInString (trimLeftSpace skip s)).1 = false).
Proof.
  induction s as [|c s IH]; intros skip; [by left|].
  cbn [trimLeftSpace blankFrom]. destruct skip as [|skip]; [|apply IH].
  destruct (DecodeRuneInString (String c s)) as [r size] eqn:Hdec.
  destruct (IsSpace r) eqn:Hr; [apply IH|].
  right. split; [done|]. by rewrite Hdec.
Qed.

Lemma TrimFuncIsSpace_empty s : TrimFuncIsSpace s = "" → blank s = true.
Proof.
  unfold TrimFuncIsSpace, blank.
  destruct (trimLeftSpace_result s 0) as [[_ Hb] | [Hne Hfirst]]; [done|].
  intros Hempty. by apply TrimRightFuncIsSpace_nonempty in Hempty.
Qed.

(** The second loop of [TrimSpace] leaves something of a string that
    starts with an ASCII byte other than white space. *)
Lemma trimStop_nonempty c (rs : list ascii) :
  byteVal c < RuneSelf → asciiSpace c = false →
  trimStop (rs ++ [c]) ≠ "".
Proof.
  intros Hc Hsp. induction rs as [|c' rs IH].
  - cbn [app trimStop]. apply Z.leb_gt in Hc. by rewrite Hc, Hsp.
  - cbn [app trimStop].
    assert (rev (c' :: rs ++ [c]) = c :: rev (c' :: rs)) as Hrev.
    { change (c' :: rs ++ [c]) with ((c' :: rs) ++ [c]). by rewrite rev_app_distr. }
    destruct (RuneSelf <=? byteVal c').
    + rewrite Hrev. cbn [string_of_list_ascii].
      apply TrimRightFuncIsSpace_nonempty; [done|].
      unfold DecodeRuneInString. apply Z.ltb_lt in Hc. rewrite Hc. cbn [fst].
      by rewrite IsSpace_ascii by lia.
    + destruct (asciiSpace c'); [done|]. by rewrite Hrev.
Qed.

(** [strings.TrimSpace] returns the empty string exactly for the blank
    strings. *)
Lemma TrimSpace_empty_iff s : TrimSpace s = "" ↔ blank s = true.
Proof.
  split; [|apply TrimSpace_blank].
  induction s as [|c s IH]; [done|]. cbn [TrimSpace].
  destruct (Z.leb_spec RuneSelf (byteVal c)) as [Hhigh | Hlow].
  - apply TrimFuncIsSpace_empty.
  - unfold blank. cbn [blankFrom DecodeRuneInString].
    apply Z.ltb_lt in Hlow as Hlow'. rewrite Hlow'.
    rewrite IsSpace_ascii by done. cbn [Nat.sub].
    destruct (asciiSpace c) eqn:Hsp; [apply IH|].
    intros Hempty. exfalso. revert Hempty.
    cbn [list_ascii_of_string rev]. by apply trimStop_nonempty.
Qed.

End Strings.

(** ** Lookup, validation and the single handlers *)

Section Properties.

Context (uni : Unicode).

Example createUser_example :
  (createUser (Some somePayload) initialStore).1 = storeWithAnn ∧
  status (createUser (Some somePayload) initialStore).2 = StatusCreated ∧
  status (createUser (Some spacePayload) initialStore).2 = StatusBadRequest ∧
  status (createUser None initialStore).2 = StatusBadRequest.
Proof. by split_and!. Qed.

Example updateUser_example :
  users (updateUser "2" (Some somePayload) initialStore).1
  = [ mkUser 1 "John Doe" "john@example.com" 30;
      mkUser 2 "Ann" "ann@example.com" 41;
      mkUser 3 "Bob Wilson" "bob@example.com" 35 ] ∧
  status (updateUser "9" (Some somePayload) initialStore).2 = StatusNotFound ∧
  status (updateUser "two" (Some somePayload) initialStore).2
  = StatusBadRequest.
Proof. by split_and!. Qed.

Example deleteUser_example :
  deleteUser "2" initialStore
  = (mkStore [ mkUser 1 "John Doe" "john@example.com" 30;
               mkUser 3 "Bob Wilson" "bob@example.com" 35 ] 4,
     mkReply StatusOK
       (mkResponse true nilAny "User deleted successfully." "" StatusOK)).
Proof. reflexivity. Qed.

Example searchUsers_example :
  returned (searchUsers uni "O" initialStore).2
  = [ mkUser 1 "John Doe" "john@example.com" 30;
      mkUser 3 "Bob Wilson" "bob@example.com" 35 ] ∧
  returned (searchUsers uni "smith" initialStore).2
  = [ mkUser 2 "Jane Smith" "jane@example.com" 25 ] ∧
  Data (body (searchUsers uni "zzz" initialStore).2) = sliceAny None.
Proof. by split_and!. Qed.

Lemma findUserByID_None us id :
  findUserByID us id = None ↔ ∀ u, u ∈ us → ID u ≠ id.
Proof. unfold findUserByID. by rewrite list_find_None, Forall_forall. Qed.

(** A successful lookup splits the list around the first user carrying
    [id]. *)
Lemma findUserByID_Some us id idx u :
  findUserByID us id = Some (idx, u) →
  ∃ pre post,
    us = pre ++ u :: post ∧ length pre = idx ∧ ID u = id ∧
    (∀ v, v ∈ pre → ID v ≠ id).
Proof.
  unfold findUserByID. intros (Hlook & Hid & Hfirst)%list_find_Some.
  exists (take idx us), (drop (S idx) us). split_and!.
  - by rewrite take_drop_middle.
  - apply length_take_le. apply lookup_lt_Some in Hlook. lia.
  - done.
  - intros v (j & Hj)%list_elem_of_lookup.
    assert (j < idx)%nat as Hlt.
    { apply lookup_lt_Some in Hj. rewrite length_take in Hj. lia. }
    rewrite lookup_take_lt in Hj by done. eauto.
Qed.

Lemma validateUser_None u : validateUser u = None ↔ ¬ invalid u.
Proof.
  unfold validateUser, invalid. rewrite <- !TrimSpace_empty_iff.
  destruct (decide (TrimSpace (Name u) = "")) as [? | ?]; [naive_solver|].
  destruct (decide (TrimSpace (Email u) = "")) as [? | ?]; [naive_solver|].
  destruct (Contains (Email u) "@") eqn:Hat; simpl; [|naive_solver].
  destruct (Z.leb_spec (Age u) 0), (Z.ltb_spec 150 (Age u)); simpl;
    (split; [try done | intros Hn; try done]).
  - destruct Hn. right. right. right. left. lia.
  - destruct Hn. right. right. right. left. lia.
  - destruct Hn. right. right. right. right. lia.
  - intros _ [? | [? | [? | [? | ?]]]]; (done || lia).
Qed.

Lemma invalid_dec u : invalid u ∨ ¬ invalid u.
Proof.
  unfold invalid.
  destruct (blank (Name u)); [by left; left|].
  destruct (blank (Email u)); [by left; right; left|].
  destruct (Contains (Email u) "@"); [|by left; right; right; left].
  destruct (decide (Age u < 1)); [by left; right; right; right; left|].
  destruct (decide (150 < Age u)); [by left; right; right; right; right|].
  right. intros [? | [? | [? | [? | ?]]]]; done.
Qed.

(** The loop of [searchUsers] keeps, in order, the users passing the
    test. *)
Lemma search_loop q (us : list User) : ∀ acc : slice,
  elems (foldl (collect uni q) acc us) =
  elems acc ++ filter (λ u, nameMatches uni q u = true) us.
Proof.
  induction us as [|u us IH]; intros acc; cbn [foldl].
  - by rewrite filter_nil, app_nil_r.
  - rewrite IH, filter_cons. unfold collect.
    destruct (nameMatches uni q u) eqn:Hm.
    + rewrite decide_True by done. unfold append1, elems. simpl.
      by rewrite <- app_assoc.
    + by rewrite decide_False by done.
Qed.

(** The loop leaves [matchingUsers] as it was when no user passes. *)
Lemma search_loop_none q (us : list User) (acc : slice) :
  (∀ u, u ∈ us → nameMatches uni q u = false) →
  foldl (collect uni q) acc us = acc.
Proof.
  revert acc. induction us as [|u us IH]; intros acc Hnone; [done|].
  cbn [foldl]. unfold collect at 2. rewrite Hnone by left.
  apply IH. intros v Hv. apply Hnone. by right.
Qed.

(** C4 (amended): [validateUser] accepts a payload exactly when none of
    these holds: the name is empty or white space only, the email is empty
    or white space only, the email has no ["@"], the age is outside
    1..150. [POST /users] answers 400 to a decoded payload exactly when it
    is invalid in this sense, and so does [PUT /users/:id] whenever the
    identifier parses and a user carries it. *)
Theorem C4_rejects_iff_invalid (u : User) (st : Store) :
  (validateUser u = None ↔ ¬ invalid u) ∧
  (status (createUser (Some u) st).2 = StatusBadRequest ↔ invalid u) ∧
  (∀ idStr id, Atoi idStr = Some id → ¬ absent id st →
     (status (updateUser idStr (Some u) st).2 = StatusBadRequest
      ↔ invalid u)).
Proof.
  split_and!.
  - apply validateUser_None.
  - unfold createUser. destruct (validateUser u) as [err|] eqn:Hv; simpl.
    + split; [intros _ | done]. destruct (invalid_dec u) as [? | Hn]; [done|].
      apply validateUser_None in Hn. congruence.
    + split; [done|]. intros Hinv. by apply validateUser_None in Hv.
  - intros idStr id Hid Hpresent. unfold updateUser. rewrite Hid.
    destruct (findUserByID (users st) id) as [[idx old]|] eqn:Hfind.
    + destruct (validateUser u) as [err|] eqn:Hv; simpl.
      * split; [intros _ | done]. destruct (invalid_dec u) as [? | Hn]; [done|].
        apply validateUser_None in Hn. congruence.
      * split; [done|]. intros Hinv. by apply validateUser_None in Hv.
    + rewrite findUserByID_None in Hfind. by destruct Hpresent.
Qed.

(** C5 (amended): a search with a non-empty name is answered 200 with, in
    the order of the stored list, exactly the users whose lower-cased name
    contains the lower-cased query as a substring. *)
Theorem C5_search_filters_by_name (st : Store) (searchName : string) :
  searchName ≠ "" →
  (∃ found : slice,
     searchUsers uni searchName st = (st, okData (sliceAny found))) ∧
  returned (searchUsers uni searchName st).2 =
    filter (λ u, nameMatches uni (ToLower uni searchName) u = true)
           (users st) ∧
  ∀ u, nameMatches uni (ToLower uni searchName) u = true ↔
       ∃ pre post,
         ToLower uni (Name u) = pre +:+ ToLower uni searchName +:+ post.
Proof.
  intros Hq. unfold searchUsers. rewrite decide_False by done.
  split_and!; [by eexists | unfold returned; simpl; by rewrite search_loop |].
  intros u. apply Contains_spec.
Qed.

(** For an identifier that [strconv.Atoi] parses, lookup, update and
    delete answer 404 exactly when no stored user carries it. *)
Lemma not_found_iff_absent (st : Store) (idStr : string) (id : Z)
    (json : option User) :
  Atoi idStr = Some id →
  (status (getUserByID idStr st).2 = StatusNotFound ↔ absent id st) ∧
  (status (updateUser idStr json st).2 = StatusNotFound ↔ absent id st) ∧
  (status (deleteUser idStr st).2 = StatusNotFound ↔ absent id st).
Proof.
  intros Hid. unfold getUserByID, updateUser, deleteUser, absent. rewrite Hid.
  destruct (findUserByID (users st) id) as [[idx old]|] eqn:Hfind.
  - assert (¬ ∀ u, u ∈ users st → ID u ≠ id) as Hnot.
    { intros Habs. apply findUserByID_None in Habs. congruence. }
    split_and!; (split; [|done]).
    + done.
    + destruct json as [payload|]; [|done].
      by destruct (validateUser payload).
    + done.
  - rewrite findUserByID_None in Hfind. by split_and!.
Qed.

(** C6: for a syntactically valid integer identifier (an optional sign
    and one or more decimal digits) whose value fits an [int], the path
    is parsed to that value, and lookup, update and delete answer 404
    exactly when no stored user carries it. For one whose value does not
    fit an [int], all three answer 400, whatever the store holds. *)
Theorem C6_not_found_iff_absent (st : Store) (idStr : string) (id : Z)
    (json : option User) :
  integerSyntax idStr = Some id →
  (inRange id →
   Atoi idStr = Some id ∧
   (status (getUserByID idStr st).2 = StatusNotFound ↔ absent id st) ∧
   (status (updateUser idStr json st).2 = StatusNotFound ↔ absent id st) ∧
   (status (deleteUser idStr st).2 = StatusNotFound ↔ absent id st)) ∧
  (¬ inRange id →
   status (getUserByID idStr st).2 = StatusBadRequest ∧
   status (updateUser idStr json st).2 = StatusBadRequest ∧
   status (deleteUser idStr st).2 = StatusBadRequest).
Proof.
  intros Hsyntax. split.
  - intros Hin. pose proof (Atoi_inRange _ _ Hsyntax Hin) as Hid.
    split; [done|]. by apply not_found_iff_absent.
  - intros Hout. pose proof (Atoi_outOfRange _ _ Hsyntax Hout) as Hid.
    unfold getUserByID, updateUser, deleteUser. by rewrite Hid.
Qed.

(** C7: a request answered with 400 or 404 leaves the list of users and
    the counter [nextID] as they were. *)
Theorem C7_errors_leave_store (req : Request) (st : Store) :
  status (handle uni req st).2 = StatusBadRequest ∨
  status (handle uni req st).2 = StatusNotFound →
  (handle uni req st).1 = st.
Proof.
  destruct req as [|idStr|json|idStr json|idStr|name]; cbn [handle].
  - done.
  - unfold getUserByID. destruct (Atoi idStr); [|done].
    by destruct (findUserByID (users st) z) as [[??]|].
  - unfold createUser. destruct json as [newUser|]; [|done].
    destruct (validateUser newUser); [done|]. by intros [? | ?].
  - unfold updateUser. destruct (Atoi idStr); [|done].
    destruct (findUserByID (users st) z) as [[??]|]; [|done].
    destruct json as [updatedData|]; [|done].
    destruct (validateUser updatedData); [done|]. by intros [? | ?].
  - unfold deleteUser. destruct (Atoi idStr); [|done].
    destruct (findUserByID (users st) z) as [[??]|]; [|done]. by intros [? | ?].
  - unfold searchUsers. by destruct (decide (name = "")).
Qed.

(** C8: a successful update replaces, in place, the first record carrying
    the identifier by the payload with that identifier, and a successful
    delete removes that record; the records before and after it, their
    order and the counter are untouched, and the length is kept by update
    and drops by one on delete. *)
Theorem C8_mutation_frame (st : Store) (idStr : string) (json : option User) :
  (status (updateUser idStr json st).2 = StatusOK →
   ∃ id payload pre old post,
     Atoi idStr = Some id ∧ json = Some payload ∧
     users st = pre ++ old :: post ∧ ID old = id ∧
     (∀ v, v ∈ pre → ID v ≠ id) ∧
     users (updateUser idStr json st).1
       = pre ++ mkUser id (Name payload) (Email payload) (Age payload) :: post ∧
     Data (body (updateUser idStr json st).2)
       = userAny (mkUser id (Name payload) (Email payload) (Age payload)) ∧
     length (users (updateUser idStr json st).1) = length (users st) ∧
     nextID (updateUser idStr json st).1 = nextID st) ∧
  (status (deleteUser idStr st).2 = StatusOK →
   ∃ id pre old post,
     Atoi idStr = Some id ∧
     users st = pre ++ old :: post ∧ ID old = id ∧
     (∀ v, v ∈ pre → ID v ≠ id) ∧
     users (deleteUser idStr st).1 = pre ++ post ∧
     S (length (users (deleteUser idStr st).1)) = length (users st) ∧
     nextID (deleteUser idStr st).1 = nextID st).
Proof.
  split.
  - unfold updateUser. destruct (Atoi idStr) as [id|]; [|done].
    destruct (findUserByID (users st) id) as [[idx old]|] eqn:Hfind; [|done].
    destruct json as [payload|]; [|done].
    destruct (validateUser payload); [done|]. intros _.
    cbn [fst snd users nextID body Data].
    destruct (findUserByID_Some _ _ _ _ Hfind) as (pre & post & Hus & Hlen & Hid & Hpre).
    exists id, payload, pre, old, post. split_and!; try done.
    + rewrite Hus, <- Hlen.
      by rewrite (insert_app_r_alt pre) by done; rewrite Nat.sub_diag.
    + rewrite list_lookup_insert_eq; [done|].
      rewrite Hus, <- Hlen, length_app. simpl. lia.
    + by rewrite length_insert.
  - unfold deleteUser. destruct (Atoi idStr) as [id|]; [|done].
    destruct (findUserByID (users st) id) as [[idx old]|] eqn:Hfind; [|done].
    intros _. cbn [fst users nextID].
    destruct (findUserByID_Some _ _ _ _ Hfind) as (pre & post & Hus & Hlen & Hid & Hpre).
    exists id, pre, old, post.
    assert (take idx (users st) ++ drop (S idx) (users st) = pre ++ post) as Hdel.
    { rewrite Hus, <- Hlen, take_app_length. f_equal.
      rewrite cons_middle, app_assoc. apply drop_app_length'.
      rewrite length_app. simpl. lia. }
    split_and!; try done.
    rewrite Hdel, Hus, !length_app. simpl. lia.
Qed.

(** C9: a payload whose name, or whose email, consists of white space
    only (the runes of [unicode.IsSpace]) is turned down by [validateUser];
    [POST /users] answers it with 400 and [PUT /users/:id] with 400, or
    with 404 when no user carries the identifier; the store is left as it
    was. *)
Theorem C9_blank_fields_rejected (u : User) (st : Store) (idStr : string) :
  blank (Name u) = true ∨ blank (Email u) = true →
  (validateUser u = Some "name is required" ∨
   validateUser u = Some "email is required") ∧
  (∃ err, createUser (Some u) st = (st, failure StatusBadRequest err)) ∧
  ((∃ err, updateUser idStr (Some u) st = (st, failure StatusBadRequest err)) ∨
   (∃ id, Atoi idStr = Some id ∧ absent id st ∧
          updateUser idStr (Some u) st
            = (st, failure StatusNotFound "User not found."))).
Proof.
  intros Hblank.
  assert (validateUser u = Some "name is required" ∨
          validateUser u = Some "email is required") as Hv.
  { unfold validateUser.
    destruct (decide (TrimSpace (Name u) = "")) as [? | Hname]; [by left|].
    destruct Hblank as [Hb | Hb].
    - by rewrite TrimSpace_blank in Hname.
    - rewrite decide_True by by apply TrimSpace_blank. by right. }
  split_and!; [done | |].
  - unfold createUser. destruct Hv as [-> | ->]; eauto.
  - unfold updateUser. destruct (Atoi idStr) as [id|]; [|eauto].
    destruct (findUserByID (users st) id) as [[idx old]|] eqn:Hfind.
    + left. destruct Hv as [-> | ->]; eauto.
    + right. exists id. by rewrite findUserByID_None in Hfind.
Qed.

(** C10 (amended): a search with a name that matches no user is answered
    with 200; [matchingUsers] is still the nil slice, which the field
    [Data] holds as a non-nil interface value, so the field is not omitted:
    it is written as [null]. *)
Theorem C10_no_match_is_null (st : Store) (searchName : string) :
  searchName ≠ "" →
  (∀ u, u ∈ users st → nameMatches uni (ToLower uni searchName) u = false) →
  searchUsers uni searchName st = (st, okData (sliceAny None)) ∧
  status (searchUsers uni searchName st).2 = StatusOK ∧
  returned (searchUsers uni searchName st).2 = [] ∧
  encodeData (Data (body (searchUsers uni searchName st).2)) = Some jsonNull.
Proof.
  intros Hq Hnone. unfold searchUsers. rewrite decide_False by done.
  by rewrite search_loop_none.
Qed.

End Properties.

(** ** The store along a run *)

Section Runs.

Context (uni : Unicode).

Local Arguments wrapInt : simpl never.
Local Arguments serial : simpl never.

(** Closes the cases in which a handler returns the store it was given. *)
Local Ltac unchanged := right; split_and!; [done | done | by left].

Lemma wrapInt_range z : inRange (wrapInt z).
Proof.
  unfold inRange, wrapInt, minInt, maxInt, intSize.
  pose proof (Z.mod_pos_bound (z - - 2 ^ (64 - 1)) (2 ^ 64) ltac:(lia)). lia.
Qed.

Lemma serial_succ n : wrapInt (serial n + 1) = serial (S n).
Proof.
  unfold serial. rewrite wrapInt_succ. f_equal. lia.
Qed.

Lemma serial_small n : 4 + Z.of_nat n ≤ maxInt → serial n = 4 + Z.of_nat n.
Proof.
  intros Hn. apply wrapInt_inRange. unfold inRange, minInt, maxInt, intSize in *. lia.
Qed.

Lemma history_length n : length (history n) = n.
Proof. induction n; simpl; congruence. Qed.

Lemma history_elem n j : j ∈ history n ↔ ∃ k, (k < n)%nat ∧ j = serial k.
Proof.
  induction n as [|n IH]; cbn [history].
  - split; [by intros ?%elem_of_nil | intros (k & ? & _); lia].
  - rewrite elem_of_cons, IH. split.
    + intros [-> | (k & ? & ->)]; [exists n | exists k]; split; (done || lia).
    + intros (k & Hk & ->). destruct (decide (k = n)) as [-> | ?]; [by left|].
      right. exists k. split; [lia | done].
Qed.

(** One request either creates a user, appending it under the current
    value of the counter and incrementing the counter, or it announces no
    new identifier, keeps the counter, and keeps the identifiers in the
    list or removes one of them. *)
Lemma handle_effect (req : Request) (st : Store) :
  (∃ u, req = Create (Some u) ∧ validateUser u = None ∧
        assignedID (handle uni req st).2 = Some (nextID st) ∧
        (handle uni req st).1
          = mkStore (users st ++ [withID u (nextID st)])
                    (wrapInt (nextID st + 1))) ∨
  (assignedID (handle uni req st).2 = None ∧
   nextID (handle uni req st).1 = nextID st ∧
   (ids (handle uni req st).1 = ids st ∨
    ∃ i, ids (handle uni req st).1 = delete i (ids st))).
Proof.
  destruct req as [|idStr|json|idStr json|idStr|name]; cbn [handle].
  - unchanged.
  - unfold getUserByID. destruct (Atoi idStr) as [id|]; [|unchanged].
    destruct (findUserByID (users st) id) as [[??]|]; unchanged.
  - unfold createUser. destruct json as [newUser|]; [|unchanged].
    destruct (validateUser newUser) eqn:Hv; [unchanged|].
    left. by exists newUser.
  - unfold updateUser. destruct (Atoi idStr) as [id|]; [|unchanged].
    destruct (findUserByID (users st) id) as [[idx old]|] eqn:Hfind; [|unchanged].
    destruct json as [updatedData|]; [|unchanged].
    destruct (validateUser updatedData); [unchanged|].
    right. split_and!; [done | done | left]. unfold ids. cbn [fst users].
    rewrite list_fmap_insert. apply list_insert_id.
    apply list_find_Some in Hfind as (Hlook & Hid & _).
    by rewrite list_lookup_fmap, Hlook; simpl; rewrite Hid.
  - unfold deleteUser. destruct (Atoi idStr) as [id|]; [|unchanged].
    destruct (findUserByID (users st) id) as [[idx old]|]; [|unchanged].
    right. split_and!; [done | done | right]. exists idx. unfold ids. cbn [fst users].
    by rewrite <- delete_take_drop, list_fmap_delete.
  - unfold searchUsers. destruct (decide (name = "")); unchanged.
Qed.

(** Along every run the identifiers assigned so far are [history n], [n]
    their number, and the store satisfies [storeInv n]. *)
Lemma reachable_inv h st :
  reachable uni h st → h = history (length h) ∧ storeInv (length h) st.
Proof.
  induction 1 as [|h st req Hreach [Hh (Hnext & ks & Hids & Hnodup & Hks)]].
  - split; [done|]. split; [done|]. exists [1; 2; 3]. split_and!; [done | |].
    + compute_done.
    + repeat (apply Forall_cons; split; [simpl; lia|]). apply Forall_nil_2.
  - destruct (handle_effect req st)
      as [(u & -> & Hv & -> & ->) | (-> & Hkeep & Hlist)].
    + change (option_list (Some (nextID st)) ++ h) with (nextID st :: h).
      cbn [length history]. rewrite Hnext, <- Hh. split; [done|].
      split; [apply serial_succ|]. exists (ks ++ [4 + Z.of_nat (length h)]).
      split_and!.
      * unfold ids in *. cbn [users]. rewrite !fmap_app, Hids. done.
      * apply NoDup_app. split_and!; [done | | apply NoDup_singleton].
        intros k Hk ->%list_elem_of_singleton.
        rewrite Forall_forall in Hks. specialize (Hks _ Hk). lia.
      * apply Forall_app. split.
        -- eapply Forall_impl; [done|]. intros k ?. cbv beta in *. lia.
        -- apply Forall_singleton. lia.
    + change (option_list None ++ h) with h. split; [done|]. split; [congruence|].
      destruct Hlist as [-> | [i ->]].
      * by exists ks.
      * exists (delete i ks). split_and!.
        -- by rewrite Hids, list_fmap_delete.
        -- by apply (sublist_NoDup _ ks), sublist_delete.
        -- by apply Forall_delete.
Qed.

(** A successful creation, spelled out. *)
Lemma createUser_valid (u : User) (st : Store) :
  validateUser u = None →
  createUser (Some u) st
  = (mkStore (users st ++ [withID u (nextID st)]) (wrapInt (nextID st + 1)),
     mkReply StatusCreated
       (mkResponse true (userAny (withID u (nextID st)))
          "User created successfully." "" StatusCreated)).
Proof. intros Hv. unfold createUser. by rewrite Hv. Qed.

Lemma createUser_assigned (json : option User) (st : Store) (id : Z) :
  assignedID (createUser json st).2 = Some id →
  ∃ u, json = Some u ∧ validateUser u = None ∧ id = nextID st.
Proof.
  unfold createUser. destruct json as [u|]; [|done].
  destruct (validateUser u) eqn:Hv; [done|].
  intros [= <-]. by exists u.
Qed.

(** Before the counter has gone round, its value is carried by no stored
    user. *)
Lemma nextID_fresh (h : list Z) (st : Store) :
  reachable uni h st →
  Z.of_nat (length h) < 2 ^ intSize - 3 →
  nextID st ∉ ids st.
Proof.
  intros (Hh & Hnext & ks & Hids & Hnodup & Hks)%reachable_inv Hn.
  rewrite Hids, Hnext. intros (k & Heq & Hk)%list_elem_of_fmap.
  rewrite Forall_forall in Hks. specialize (Hks k Hk). cbv beta in Hks.
  apply (wrapInt_inj_window 1) in Heq; unfold intSize in *; lia.
Qed.

(** C1 (amended): in every store reached from the three seeded users by
    creations, updates and deletions (and reads), of which at most
    [2 ^ 64 - 3] are successful creations, the identifiers in the list are
    pairwise distinct. *)
Theorem C1_ids_distinct (h : list Z) (st : Store) :
  reachable uni h st →
  Z.of_nat (length h) ≤ 2 ^ intSize - 3 →
  NoDup (ids st).
Proof.
  intros (Hh & Hnext & ks & Hids & Hnodup & Hks)%reachable_inv Hn.
  rewrite Hids. apply NoDup_fmap_2_strong; [|done].
  intros x y Hx Hy. rewrite Forall_forall in Hks.
  specialize (Hks x Hx) as Hx'. specialize (Hks y Hy) as Hy'. cbv beta in *.
  apply (wrapInt_inj_window 1); unfold intSize in *; lia.
Qed.

(** C2 (amended): as long as fewer than [2 ^ 63 - 4] users have been
    created, a successful creation assigns the current value of the
    counter, which is strictly greater than every identifier assigned
    before and than every identifier in the list; the identifier in the
    request body plays no part. *)
Theorem C2_ids_increase (h : list Z) (st : Store) (json : option User)
    (id : Z) :
  reachable uni h st →
  Z.of_nat (length h) < 2 ^ (intSize - 1) - 4 →
  assignedID (createUser json st).2 = Some id →
  id = nextID st ∧
  Forall (λ j, j < id) h ∧
  Forall (λ j, j < id) (ids st) ∧
  ∃ u, json = Some u ∧
       ∀ supplied,
         createUser (Some (withID u supplied)) st = createUser json st.
Proof.
  intros Hreach Hn (u & -> & Hv & ->)%createUser_assigned.
  destruct (reachable_inv _ _ Hreach) as (Hh & Hnext & ks & Hids & Hnodup & Hks).
  unfold intSize in Hn.
  assert (nextID st = 4 + Z.of_nat (length h)) as Hid.
  { rewrite Hnext. apply serial_small. unfold maxInt, intSize. lia. }
  split_and!; [done | | |].
  - rewrite Hh. apply Forall_forall. intros j (k & Hk & ->)%history_elem.
    rewrite serial_small, Hid; [lia|].
    unfold maxInt, intSize. lia.
  - rewrite Hids, Forall_fmap. eapply Forall_impl; [done|]. intros k Hk.
    cbv beta in Hk. simpl. rewrite wrapInt_inRange, Hid; [lia|].
    unfold inRange, minInt, maxInt, intSize. lia.
  - exists u. split; [done|]. intros supplied.
    by rewrite !createUser_valid by done.
Qed.

(** C3 (amended): as long as fewer than [2 ^ 64 - 3] users have been
    created, creating a valid payload answers 201 with the payload under
    the assigned identifier, and a lookup of that identifier in the
    resulting store answers 200 with the same user: the name, email and age
    of the payload and the identifier assigned. *)
Theorem C3_create_then_get (h : list Z) (st : Store) (u : User) :
  reachable uni h st →
  Z.of_nat (length h) < 2 ^ intSize - 3 →
  validateUser u = None →
  ∃ id,
    let created := mkUser id (Name u) (Email u) (Age u) in
    status (createUser (Some u) st).2 = StatusCreated ∧
    Data (body (createUser (Some u) st).2) = userAny created ∧
    Atoi (decimal id) = Some id ∧
    ∀ idStr, Atoi idStr = Some id →
      getUserByID idStr (createUser (Some u) st).1
      = ((createUser (Some u) st).1, okData (userPtrAny created)).
Proof.
  intros Hreach Hn Hv. exists (nextID st). cbv zeta.
  rewrite createUser_valid by done. cbn [fst snd status body Data].
  split_and!; [done | done | |].
  - apply Atoi_decimal. apply reachable_inv in Hreach as (_ & -> & _).
    apply wrapInt_range.
  - intros idStr Hid. unfold getUserByID. rewrite Hid. cbn [users].
    pose proof (nextID_fresh _ _ Hreach Hn) as Hfresh.
    unfold findUserByID. rewrite list_find_app_r.
    + simpl. by rewrite decide_True by done.
    + apply list_find_None, Forall_forall. intros v Hv' Heq.
      apply Hfresh. unfold ids. rewrite <- Heq. by apply list_elem_of_fmap_2.
Qed.

(** *** Driving the counter round *)

Lemma validateUser_somePayload : validateUser somePayload = None.
Proof. reflexivity. Qed.

(** Until the counter has gone round, its value is none of the seeded
    identifiers. *)
Lemma serial_not_seeded n :
  Z.of_nat n < 2 ^ intSize - 3 → serial n ≠ 1 ∧ serial n ≠ 2 ∧ serial n ≠ 3.
Proof.
  unfold intSize. intros Hn.
  assert (∀ z, 1 ≤ z ≤ 3 → serial n ≠ z) as Hne; [|split_and!; apply Hne; lia].
  intros z Hz Heq. rewrite <- (wrapInt_inRange z) in Heq.
  - apply (wrapInt_inj_window 1) in Heq; unfold intSize; lia.
  - unfold inRange, minInt, maxInt, intSize. lia.
Qed.

(** Looking up an identifier that only the appended user carries. *)
Lemma findUserByID_appended (u : User) (x : Z) :
  x ≠ 1 → x ≠ 2 → x ≠ 3 →
  findUserByID (seedUsers ++ [withID u x]) x = Some (3%nat, withID u x).
Proof.
  intros H1 H2 H3. unfold findUserByID, seedUsers. cbn [app list_find ID].
  rewrite !decide_False by (simpl; congruence).
  by rewrite decide_True by done.
Qed.

(** Creating a user and deleting it again [n] times leaves the seeded
    users in the store and the counter at [serial n]: a run of [2 * n]
    requests over a store that never holds more than four users. *)
Lemma create_delete_reachable n :
  Z.of_nat n ≤ 2 ^ intSize - 3 →
  reachable uni (history n) (mkStore seedUsers (serial n)).
Proof.
  induction n as [|n IH]; intros Hn.
  - apply reachable_init.
  - specialize (IH ltac:(lia)).
    destruct (serial_not_seeded n ltac:(lia)) as (H1 & H2 & H3).
    pose proof (reachable_step uni _ _ (Create (Some somePayload)) IH) as Hc.
    cbn [handle] in Hc.
    rewrite createUser_valid in Hc by apply validateUser_somePayload.
    cbn [fst snd users nextID] in Hc.
    pose proof (reachable_step uni _ _ (Delete (decimal (serial n))) Hc) as Hd.
    cbn [handle] in Hd. unfold deleteUser in Hd.
    rewrite Atoi_decimal in Hd by apply wrapInt_range.
    cbn [users nextID] in Hd.
    rewrite findUserByID_appended in Hd by done.
    by rewrite serial_succ in Hd.
Qed.

(** After [2 ^ 64 - 3] creations the counter is back at 1, the identifier
    of the first seeded user. *)
Lemma counter_round : ∃ h, reachable uni h (mkStore seedUsers 1).
Proof.
  assert (∃ n, Z.of_nat n = 2 ^ intSize - 3) as [n Hn].
  { exists (Z.to_nat (2 ^ intSize - 3)). unfold intSize. lia. }
  exists (history n).
  replace 1 with (serial n); [apply create_delete_reachable; lia|].
  unfold serial. by rewrite Hn.
Qed.

(** After [2 ^ 63 - 4] creations, the first of which was given 4, the
    counter is at the least [int]. *)
Lemma counter_negative : ∃ h, 4 ∈ h ∧ reachable uni h (mkStore seedUsers minInt).
Proof.
  assert (∃ n, Z.of_nat n = 2 ^ (intSize - 1) - 4) as [n Hn].
  { exists (Z.to_nat (2 ^ (intSize - 1) - 4)). unfold intSize. lia. }
  exists (history n). split.
  - apply history_elem. exists 0%nat. unfold intSize in Hn. split; [lia | done].
  - replace minInt with (serial n);
      [apply create_delete_reachable; unfold intSize in *; lia|].
    unfold serial. by rewrite Hn.
Qed.

End Runs.

(** ** The properties at work, and where the counter wraps *)

Lemma reachable_storeWithAnn uni : reachable uni [4] storeWithAnn.
Proof.
  exact (reachable_step uni [] initialStore (Create (Some somePayload))
           (reachable_init uni)).
Qed.

(** C1 at work: the store with Ann added is reached after one creation and
    its four identifiers are distinct. *)
Lemma C1_ids_distinct_witness :
  reachable asciiOnly [4] storeWithAnn ∧ NoDup (ids storeWithAnn).
Proof.
  split; [apply reachable_storeWithAnn|].
  apply (C1_ids_distinct asciiOnly [4] storeWithAnn).
  - apply reachable_storeWithAnn.
  - vm_compute. discriminate.
Defined.

(** C1 as stated fails: whatever the Unicode tables, a run reaches a store
    with two users of identifier 1. Creating and deleting a user
    [2 ^ 64 - 3] times brings [nextID] from 4 round to 1 with the seeded
    users still stored; the next creation appends a second user 1. *)
Lemma C1_counterexample :
  ¬ ∃ uni, ∀ h st, reachable uni h st → NoDup (ids st).
Proof.
  intros [uni Hclaim]. destruct (counter_round uni) as [h Hreach].
  pose proof (reachable_step uni _ _ (Create (Some somePayload)) Hreach) as Hc.
  apply Hclaim in Hc. vm_compute in Hc.
  apply NoDup_cons in Hc as [Hnotin _]. apply Hnotin.
  do 2 right. left.
Qed.

(** C2 at work: the first creation on the initial store assigns 4, above
    the seeded 1, 2, 3, whatever identifier the body carries. *)
Lemma C2_ids_increase_witness :
  4 = nextID initialStore ∧
  Forall (λ j, j < 4) [] ∧
  Forall (λ j, j < 4) (ids initialStore) ∧
  ∃ u, Some somePayload = Some u ∧
       ∀ supplied,
         createUser (Some (withID u supplied)) initialStore
         = createUser (Some somePayload) initialStore.
Proof.
  apply (C2_ids_increase asciiOnly [] initialStore (Some somePayload) 4).
  - apply reachable_init.
  - vm_compute. reflexivity.
  - reflexivity.
Defined.

(** C2 as stated fails: after [2 ^ 63 - 4] creations, the first of which
    was given 4, [nextID] has passed the greatest [int] and is the least
    one; the next user created is given [- 2 ^ 63], which is below 4. *)
Lemma C2_counterexample :
  ¬ ∃ uni, ∀ h st json id,
      reachable uni h st →
      assignedID (createUser json st).2 = Some id →
      Forall (λ j, j < id) h.
Proof.
  intros [uni Hclaim]. destruct (counter_negative uni) as (h & H4 & Hreach).
  specialize (Hclaim h _ (Some somePayload) minInt Hreach eq_refl).
  rewrite Forall_forall in Hclaim. specialize (Hclaim 4 H4).
  vm_compute in Hclaim. discriminate.
Qed.

(** C3 at work: Ann is created on the initial store and read back. *)
Lemma C3_create_then_get_witness :
  ∃ id,
    status (createUser (Some somePayload) initialStore).2
      = StatusCreated ∧
    Data (body (createUser (Some somePayload) initialStore).2)
      = userAny (mkUser id "Ann" "ann@example.com" 41) ∧
    Atoi (decimal id) = Some id ∧
    ∀ idStr, Atoi idStr = Some id →
      getUserByID idStr (createUser (Some somePayload) initialStore).1
      = ((createUser (Some somePayload) initialStore).1,
         okData (userPtrAny (mkUser id "Ann" "ann@example.com" 41))).
Proof.
  apply (C3_create_then_get asciiOnly [] initialStore somePayload).
  - apply reachable_init.
  - vm_compute. reflexivity.
  - reflexivity.
Defined.

(** C3 as stated fails: once [nextID] has come round to 1 (after
    [2 ^ 64 - 3] creations), creating [somePayload] assigns it 1, and the
    lookup of 1 answers with the first user carrying 1, the seeded
    ["John Doe"], not with the user just created. *)
Lemma C3_counterexample :
  ¬ ∃ uni, ∀ h st u,
      reachable uni h st →
      validateUser u = None →
      ∃ id found,
        assignedID (createUser (Some u) st).2 = Some id ∧
        getUserByID (decimal id) (createUser (Some u) st).1
        = ((createUser (Some u) st).1, okData (userPtrAny found)) ∧
        Name found = Name u ∧ Email found = Email u ∧ Age found = Age u.
Proof.
  intros [uni Hclaim]. destruct (counter_round uni) as [h Hreach].
  destruct (Hclaim h _ somePayload Hreach eq_refl)
    as (id & found & Hid & Hget & Hname & _).
  injection Hid as <-. vm_compute in Hget. injection Hget as <-.
  discriminate.
Qed.

(** C4 as stated fails twice. A name of one space is not empty, the rest
    of [spacePayload] is in order, and [POST /users] answers 400 all the
    same. And [namelessPayload] is invalid, but [PUT /users/99] on the
    initial store answers 404: the lookup comes before validation. *)
Lemma C4_counterexample :
  (¬ invalidUntrimmed spacePayload ∧
   status (createUser (Some spacePayload) initialStore).2 = StatusBadRequest) ∧
  (invalidUntrimmed namelessPayload ∧
   status (updateUser "99" (Some namelessPayload) initialStore).2
   = StatusNotFound).
Proof.
  split_and!.
  - intros [? | [? | [? | [? | ?]]]]; (discriminate || done).
  - reflexivity.
  - by left.
  - reflexivity.
Qed.

(** C4 at work: [PUT /users/2] with a name of one space. *)
Lemma C4_rejects_iff_invalid_witness :
  status (updateUser "2" (Some spacePayload) initialStore).2
    = StatusBadRequest
  ↔ invalid spacePayload.
Proof.
  apply (C4_rejects_iff_invalid spacePayload initialStore) with (id := 2).
  - reflexivity.
  - intros Habsent. apply (Habsent (mkUser 2 "Jane Smith" "jane@example.com" 25)).
    + right. left.
    + reflexivity.
Defined.

(** C5 at work: the search for ["O"] on the initial store. *)
Lemma C5_search_filters_by_name_witness :
  (∃ found : slice,
     searchUsers asciiOnly "O" initialStore
     = (initialStore, okData (sliceAny found))) ∧
  returned (searchUsers asciiOnly "O" initialStore).2 =
    filter (λ u, nameMatches asciiOnly (ToLower asciiOnly "O") u = true)
           (users initialStore) ∧
  ∀ u, nameMatches asciiOnly (ToLower asciiOnly "O") u = true ↔
       ∃ pre post,
         ToLower asciiOnly (Name u) = pre +:+ ToLower asciiOnly "O" +:+ post.
Proof.
  apply (C5_search_filters_by_name asciiOnly initialStore "O"). discriminate.
Defined.

(** C5 as stated fails on the empty query: every name contains the empty
    string, so all three seeded users qualify, but the handler answers 400
    and returns no user, whatever the Unicode tables. *)
Lemma C5_counterexample :
  ¬ ∃ uni,
      returned (searchUsers uni "" initialStore).2 =
      filter (λ u, nameMatches uni (ToLower uni "") u = true)
             (users initialStore).
Proof.
  intros [uni Hclaim]. vm_compute in Hclaim. discriminate.
Qed.

(** C6 at work: identifier 7 on the initial store, and the identifier
    [2 ^ 63], one above the largest [int]. *)
Lemma C6_not_found_iff_absent_witness :
  (Atoi "7" = Some 7 ∧
   (status (getUserByID "7" initialStore).2 = StatusNotFound
    ↔ absent 7 initialStore) ∧
   (status (updateUser "7" (Some somePayload) initialStore).2
      = StatusNotFound ↔ absent 7 initialStore) ∧
   (status (deleteUser "7" initialStore).2 = StatusNotFound
    ↔ absent 7 initialStore)) ∧
  (status (getUserByID "9223372036854775808" initialStore).2
     = StatusBadRequest ∧
   status (updateUser "9223372036854775808" (Some somePayload) initialStore).2
     = StatusBadRequest ∧
   status (deleteUser "9223372036854775808" initialStore).2
     = StatusBadRequest).
Proof.
  split.
  - apply (C6_not_found_iff_absent initialStore "7" 7 (Some somePayload)).
    + reflexivity.
    + unfold inRange, minInt, maxInt, intSize. lia.
  - apply (C6_not_found_iff_absent initialStore "9223372036854775808"
             9223372036854775808 (Some somePayload)).
    + reflexivity.
    + unfold inRange, minInt, maxInt, intSize. lia.
Defined.

(** C6 without the range condition: ["9223372036854775808"] is a
    syntactically valid integer that no stored user carries, and lookup,
    update and delete answer 400 to it, not 404. *)
Lemma C6_counterexample :
  integerSyntax "9223372036854775808" = Some 9223372036854775808 ∧
  absent 9223372036854775808 initialStore ∧
  ¬ (status (getUserByID "9223372036854775808" initialStore).2
       = StatusNotFound ↔ absent 9223372036854775808 initialStore) ∧
  ¬ (status (updateUser "9223372036854775808" (Some somePayload)
               initialStore).2
       = StatusNotFound ↔ absent 9223372036854775808 initialStore) ∧
  ¬ (status (deleteUser "9223372036854775808" initialStore).2
       = StatusNotFound ↔ absent 9223372036854775808 initialStore).
Proof.
  assert (absent 9223372036854775808 initialStore) as Habs.
  { unfold absent. by rewrite <- findUserByID_None. }
  split_and!; [done | done | | |]; by intros [_ Hback]; specialize (Hback Habs).
Qed.

(** C7 at work: an update turned down with 400. *)
Lemma C7_errors_leave_store_witness :
  (handle asciiOnly (Update "2" (Some spacePayload)) initialStore).1
  = initialStore.
Proof.
  apply (C7_errors_leave_store asciiOnly (Update "2" (Some spacePayload))
           initialStore).
  left. reflexivity.
Defined.

(** C8 at work: [PUT /users/2] with Ann's payload, and [DELETE /users/2],
    both answered 200 on the initial store. *)
Lemma C8_mutation_frame_witness :
  (∃ id payload pre old post,
     Atoi "2" = Some id ∧ Some somePayload = Some payload ∧
     users initialStore = pre ++ old :: post ∧ ID old = id ∧
     (∀ v, v ∈ pre → ID v ≠ id) ∧
     users (updateUser "2" (Some somePayload) initialStore).1
       = pre ++ mkUser id (Name payload) (Email payload) (Age payload) :: post ∧
     Data (body (updateUser "2" (Some somePayload) initialStore).2)
       = userAny (mkUser id (Name payload) (Email payload) (Age payload)) ∧
     length (users (updateUser "2" (Some somePayload) initialStore).1)
       = length (users initialStore) ∧
     nextID (updateUser "2" (Some somePayload) initialStore).1
       = nextID initialStore) ∧
  (∃ id pre old post,
     Atoi "2" = Some id ∧
     users initialStore = pre ++ old :: post ∧ ID old = id ∧
     (∀ v, v ∈ pre → ID v ≠ id) ∧
     users (deleteUser "2" initialStore).1 = pre ++ post ∧
     S (length (users (deleteUser "2" initialStore).1))
       = length (users initialStore) ∧
     nextID (deleteUser "2" initialStore).1 = nextID initialStore).
Proof.
  split.
  - apply (proj1 (C8_mutation_frame initialStore "2" (Some somePayload))).
    reflexivity.
  - apply (proj2 (C8_mutation_frame initialStore "2" (Some somePayload))).
    reflexivity.
Defined.

(** C9 at work: a name made of a tab, a no-break space and an ideographic
    space. *)
Lemma C9_blank_fields_rejected_witness :
  (validateUser blankPayload = Some "name is required" ∨
   validateUser blankPayload = Some "email is required") ∧
  (∃ err, createUser (Some blankPayload) initialStore
          = (initialStore, failure StatusBadRequest err)) ∧
  ((∃ err, updateUser "2" (Some blankPayload) initialStore
           = (initialStore, failure StatusBadRequest err)) ∨
   (∃ id, Atoi "2" = Some id ∧ absent id initialStore ∧
          updateUser "2" (Some blankPayload) initialStore
          = (initialStore, failure StatusNotFound "User not found."))).
Proof.
  apply (C9_blank_fields_rejected blankPayload initialStore "2").
  left. reflexivity.
Defined.

(** C10 at work: the search for ["zzz"] on the initial store. *)
Lemma C10_no_match_is_null_witness :
  searchUsers asciiOnly "zzz" initialStore
    = (initialStore, okData (sliceAny None)) ∧
  status (searchUsers asciiOnly "zzz" initialStore).2 = StatusOK ∧
  returned (searchUsers asciiOnly "zzz" initialStore).2 = [] ∧
  encodeData (Data (body (searchUsers asciiOnly "zzz" initialStore).2))
    = Some jsonNull.
Proof.
  apply (C10_no_match_is_null asciiOnly initialStore "zzz").
  - discriminate.
  - intros u Hu. repeat (apply elem_of_cons in Hu as [-> | Hu]); try reflexivity.
    by apply elem_of_nil in Hu.
Defined.

(** C10 as stated fails: on the initial store no name contains ["zzz"],
    and the field [data] of the reply is not left out, whatever the
    Unicode tables. *)
Lemma C10_counterexample :
  ¬ ∃ uni,
      (∀ u, u ∈ users initialStore →
            nameMatches uni (ToLower uni "zzz") u = false) →
      encodeData (Data (body (searchUsers uni "zzz" initialStore).2)) = None.
Proof.
  intros [uni Hclaim]. assert (Some jsonNull = None) as Habs; [|discriminate].
  apply Hclaim. intros u Hu.
  repeat (apply elem_of_cons in Hu as [-> | Hu]); try reflexivity.
  by apply elem_of_nil in Hu.
Qed.

(** ** Further properties of the handlers *)

Section Lookups.

Lemma found_nil id : found id [] = None.
Proof. done. Qed.

Lemma found_cons id u us :
  found id (u :: us) = if decide (ID u = id) then Some u else found id us.
Proof.
  unfold found, findUserByID. cbn [list_find].
  destruct (decide (ID u = id)); [done|].
  by destruct (list_find (λ u0, ID u0 = id) us) as [[??]|].
Qed.

Lemma found_app id us1 us2 :
  found id (us1 ++ us2) = from_option Some (found id us2) (found id us1).
Proof.
  induction us1 as [|u us1 IH]; [done|].
  rewrite <- app_comm_cons, !found_cons. by destruct (decide (ID u = id)).
Qed.

Lemma found_None id us : found id us = None ↔ ∀ u, u ∈ us → ID u ≠ id.
Proof.
  unfold found. rewrite <- findUserByID_None.
  by destruct (findUserByID us id).
Qed.

Lemma found_Some id us u : found id us = Some u → u ∈ us ∧ ID u = id.
Proof.
  unfold found, findUserByID.
  destruct (list_find _ us) as [[i v]|] eqn:Hfind; [|done].
  intros [= <-]. apply list_find_Some in Hfind as (Hlook & Hid & _).
  split; [by eapply list_elem_of_lookup_2 | done].
Qed.

(** [GET /users/:id] in terms of [found]. *)
Lemma getUserByID_found idStr st :
  getUserByID idStr st
  = (st, match Atoi idStr with
         | None =>
             failure StatusBadRequest
               "Invalid user ID format. Must be an Integer."
         | Some id =>
             match found id (users st) with
             | None => failure StatusNotFound "User not found."
             | Some u => okData (userPtrAny u)
             end
         end).
Proof.
  unfold getUserByID, found. destruct (Atoi idStr) as [id|]; [|done].
  by destruct (findUserByID (users st) id) as [[??]|].
Qed.

(** With distinct identifiers, the user found under the identifier of a
    stored user is that user. *)
Lemma found_stored us u :
  NoDup (ID <$> us) → u ∈ us → found (ID u) us = Some u.
Proof.
  induction us as [|v us IH]; [by intros _ ?%elem_of_nil|].
  rewrite fmap_cons, NoDup_cons, found_cons, elem_of_cons.
  intros [Hv Hnd] [-> | Hu]; [by rewrite decide_True|].
  rewrite decide_False; [by apply IH|].
  intros Heq. apply Hv. rewrite Heq. by apply list_elem_of_fmap_2.
Qed.

End Lookups.

Section Coverage.

Context (uni : Unicode).

(** A successful update, spelled out. *)
Lemma updateUser_ok idStr json st :
  status (updateUser idStr json st).2 = StatusOK →
  ∃ id u pre old post,
    Atoi idStr = Some id ∧ json = Some u ∧ validateUser u = None ∧
    users st = pre ++ old :: post ∧ ID old = id ∧
    (∀ v, v ∈ pre → ID v ≠ id) ∧
    updateUser idStr json st
    = (mkStore (pre ++ withID u id :: post) (nextID st),
       mkReply StatusOK
         (mkResponse true (userAny (withID u id))
            "User updated successfully." "" StatusOK)).
Proof.
  unfold updateUser. destruct (Atoi idStr) as [id|]; [|done].
  destruct (findUserByID (users st) id) as [[idx old]|] eqn:Hfind; [|done].
  destruct json as [u|]; [|done].
  destruct (validateUser u) eqn:Hv; [done|]. intros _.
  destruct (findUserByID_Some _ _ _ _ Hfind) as (pre & post & Hus & Hlen & Hid & Hpre).
  exists id, u, pre, old, post. split_and!; try done.
  assert (<[idx:=withID u id]> (users st) = pre ++ withID u id :: post) as ->.
  { rewrite Hus, <- Hlen.
    by rewrite (insert_app_r_alt pre) by done; rewrite Nat.sub_diag. }
  by rewrite <- Hlen, list_lookup_middle.
Qed.

(** An update that is not answered 200 changes nothing. *)
Lemma updateUser_failed idStr json st :
  status (updateUser idStr json st).2 ≠ StatusOK →
  (updateUser idStr json st).1 = st.
Proof.
  unfold updateUser. destruct (Atoi idStr) as [id|]; [|done].
  destruct (findUserByID (users st) id) as [[idx old]|]; [|done].
  destruct json as [u|]; [|done]. by destruct (validateUser u).
Qed.

(** A successful deletion, spelled out. *)
Lemma deleteUser_ok idStr st :
  status (deleteUser idStr st).2 = StatusOK →
  ∃ id pre old post,
    Atoi idStr = Some id ∧
    users st = pre ++ old :: post ∧ ID old = id ∧
    (∀ v, v ∈ pre → ID v ≠ id) ∧
    (deleteUser idStr st).1 = mkStore (pre ++ post) (nextID st).
Proof.
  unfold deleteUser. destruct (Atoi idStr) as [id|]; [|done].
  destruct (findUserByID (users st) id) as [[idx old]|] eqn:Hfind; [|done].
  intros _. cbn [fst].
  destruct (findUserByID_Some _ _ _ _ Hfind) as (pre & post & Hus & Hlen & Hid & Hpre).
  exists id, pre, old, post. split_and!; try done. f_equal.
  rewrite Hus, <- Hlen, take_app_length. f_equal.
  rewrite cons_middle, app_assoc. apply drop_app_length'.
  rewrite length_app. simpl. lia.
Qed.

Lemma deleteUser_failed idStr st :
  status (deleteUser idStr st).2 ≠ StatusOK → (deleteUser idStr st).1 = st.
Proof.
  unfold deleteUser. destruct (Atoi idStr) as [id|]; [|done].
  by destruct (findUserByID (users st) id) as [[idx old]|].
Qed.

(** X4: an update answered 200 is read back by [GET /users/:id] under the
    same identifier, in every store: the reply carries the name, email and
    age of the payload and the identifier of the path, whatever identifier
    the payload carried. *)
Theorem X4_update_then_get (st : Store) (idStr : string) (json : option User) :
  status (updateUser idStr json st).2 = StatusOK →
  ∃ id u,
    Atoi idStr = Some id ∧ json = Some u ∧
    getUserByID idStr (updateUser idStr json st).1
    = ((updateUser idStr json st).1,
       okData (userPtrAny (mkUser id (Name u) (Email u) (Age u)))).
Proof.
  intros (id & u & pre & old & post & Hid & -> & Hv & Hus & Hold & Hpre & ->)%updateUser_ok.
  exists id, u. split_and!; [done | done |].
  rewrite getUserByID_found, Hid. cbn [fst users].
  rewrite found_app, found_cons, decide_True by done.
  by rewrite (proj2 (found_None id pre)) by done.
Qed.

(** X5: in a store with distinct identifiers, once [DELETE /users/:id] is
    answered 200 no user carries the identifier any more: lookup, update
    and a second deletion are all answered 404. *)
Theorem X5_delete_then_not_found (st : Store) (idStr : string)
    (json : option User) :
  NoDup (ids st) →
  status (deleteUser idStr st).2 = StatusOK →
  ∃ id,
    Atoi idStr = Some id ∧
    absent id (deleteUser idStr st).1 ∧
    status (getUserByID idStr (deleteUser idStr st).1).2 = StatusNotFound ∧
    status (updateUser idStr json (deleteUser idStr st).1).2 = StatusNotFound ∧
    status (deleteUser idStr (deleteUser idStr st).1).2 = StatusNotFound.
Proof.
  intros Hnd (id & pre & old & post & Hid & Hus & Hold & Hpre & ->)%deleteUser_ok.
  assert (absent id (mkStore (pre ++ post) (nextID st))) as Habs.
  { unfold absent. cbn [users]. intros v [Hv | Hv]%elem_of_app; [by apply Hpre|].
    unfold ids in Hnd. rewrite Hus, fmap_app, fmap_cons in Hnd.
    apply NoDup_app in Hnd as (_ & _ & [Hnotin _]%NoDup_cons).
    intros Heq. apply Hnotin. rewrite Hold, <- Heq. by apply list_elem_of_fmap_2. }
  exists id. split_and!; [done | done | | |].
  - unfold getUserByID. rewrite Hid.
    by rewrite (proj2 (findUserByID_None _ _) Habs).
  - unfold updateUser. rewrite Hid.
    by rewrite (proj2 (findUserByID_None _ _) Habs).
  - unfold deleteUser at 1. rewrite Hid.
    by rewrite (proj2 (findUserByID_None _ _) Habs).
Qed.

(** X6: an update or a deletion under one identifier, whether it succeeds
    or not, leaves the reply of [GET /users/:id] for every other identifier
    as it was. *)
Theorem X6_other_ids_untouched (st : Store) (idStr idStr' : string)
    (id id' : Z) (json : option User) :
  Atoi idStr = Some id → Atoi idStr' = Some id' → id' ≠ id →
  (getUserByID idStr' (updateUser idStr json st).1).2
    = (getUserByID idStr' st).2 ∧
  (getUserByID idStr' (deleteUser idStr st).1).2
    = (getUserByID idStr' st).2.
Proof.
  intros Hid Hid' Hne. rewrite !getUserByID_found, Hid'. cbn [snd]. split.
  - destruct (decide (status (updateUser idStr json st).2 = StatusOK)) as [Hok | Hno].
    + apply updateUser_ok in Hok
        as (i & u & pre & old & post & Hi & -> & Hv & Hus & Hold & Hpre & ->).
      assert (i = id) as -> by congruence. cbn [fst users].
      rewrite Hus, !found_app, !found_cons, !decide_False; [done | |];
        simpl; congruence.
    + by rewrite updateUser_failed.
  - destruct (decide (status (deleteUser idStr st).2 = StatusOK)) as [Hok | Hno].
    + apply deleteUser_ok in Hok
        as (i & pre & old & post & Hi & Hus & Hold & Hpre & ->).
      assert (i = id) as -> by congruence. cbn [users].
      rewrite Hus, !found_app, found_cons, decide_False; [done|]. congruence.
    + by rewrite deleteUser_failed.
Qed.

(** X7: [POST /users], whatever its outcome, leaves the reply of
    [GET /users/:id] as it was for every identifier some stored user
    carries, and for every identifier other than the value of [nextID]. *)
Theorem X7_create_keeps_lookups (st : Store) (json : option User)
    (idStr' : string) (id' : Z) :
  Atoi idStr' = Some id' →
  ¬ absent id' st ∨ id' ≠ nextID st →
  (getUserByID idStr' (createUser json st).1).2 = (getUserByID idStr' st).2.
Proof.
  intros Hid' Hcase. rewrite !getUserByID_found, Hid'. cbn [snd].
  unfold createUser. destruct json as [u|]; [|done].
  destruct (validateUser u); [done|]. cbn [fst users].
  rewrite found_app, found_cons, found_nil.
  destruct (found id' (users st)) as [v|] eqn:Hfound; [done|]. simpl.
  destruct Hcase as [Hpresent | Hne].
  - destruct Hpresent. unfold absent. by rewrite <- found_None.
  - by rewrite decide_False by (simpl; congruence).
Qed.

(** X12: repeating an update changes nothing more: the second call returns
    the store and the reply of the first. *)
Theorem X12_update_idempotent (st : Store) (idStr : string)
    (json : option User) :
  updateUser idStr json (updateUser idStr json st).1
  = updateUser idStr json st.
Proof.
  destruct (decide (status (updateUser idStr json st).2 = StatusOK)) as [Hok | Hno].
  - apply updateUser_ok in Hok
      as (id & u & pre & old & post & Hid & -> & Hv & Hus & Hold & Hpre & Hupd).
    rewrite Hupd. cbn [fst]. unfold updateUser. rewrite Hid, Hv. cbn [users nextID].
    assert (findUserByID (pre ++ withID u id :: post) id
            = Some (length pre, withID u id)) as ->.
    { unfold findUserByID. rewrite list_find_app_r.
      - simpl. by rewrite decide_True by done.
      - by apply findUserByID_None. }
    rewrite (insert_app_r_alt pre) by done. rewrite Nat.sub_diag. cbn [insert list_insert].
    by rewrite list_lookup_middle.
  - rewrite updateUser_failed by done. destruct (updateUser idStr json st); done.
Qed.

(** X16: in a store with distinct identifiers every stored user is
    retrievable: [GET /users/:id] with a path that parses to its identifier
    answers 200 with exactly that user. *)
Theorem X16_stored_user_is_found (st : Store) (u : User) (idStr : string) :
  NoDup (ids st) → u ∈ users st → Atoi idStr = Some (ID u) →
  getUserByID idStr st = (st, okData (userPtrAny u)).
Proof.
  intros Hnd Hu Hid. rewrite getUserByID_found, Hid.
  by rewrite found_stored.
Qed.

(** *** Validation *)

Lemma validateUser_firstComplaint u : validateUser u = firstComplaint u.
Proof.
  unfold validateUser, firstComplaint.
  destruct (blank (Name u)) eqn:Hname.
  { by rewrite decide_True by by apply TrimSpace_empty_iff. }
  rewrite decide_False by (rewrite TrimSpace_empty_iff; congruence).
  destruct (blank (Email u)) eqn:Hemail.
  { by rewrite decide_True by by apply TrimSpace_empty_iff. }
  rewrite decide_False by (rewrite TrimSpace_empty_iff; congruence).
  destruct (Contains (Email u) "@"); [|done]. cbn [negb].
  by destruct (Z.leb_spec (Age u) 0), (Z.ltb_spec (Age u) 1); try lia.
Qed.

Lemma validateUser_wellFormed u : validateUser u = None ↔ wellFormed u.
Proof.
  rewrite validateUser_firstComplaint. unfold firstComplaint, wellFormed.
  destruct (blank (Name u)); [split; [done | by intros [? _]]|].
  destruct (blank (Email u)); [split; [done | by intros (_ & ? & _)]|].
  destruct (Contains (Email u) "@"); [|split; [done | by intros (_ & _ & ? & _)]].
  cbn [negb].
  destruct (Z.ltb_spec (Age u) 1), (Z.ltb_spec 150 (Age u)); cbn [orb];
    (split; [try done | intros (_ & _ & _ & ?); try lia]).
  done.
Qed.

Lemma validateUser_message u err : validateUser u = Some err → err ≠ "".
Proof.
  rewrite validateUser_firstComplaint. unfold firstComplaint.
  repeat case_match; by intros [= <-].
Qed.

(** X11: the message of [validateUser] is that of the first check that
    fails, in the order name, email present, email format, age: a name
    that is empty or white space only is reported whatever the other
    fields hold, and the format of the email is only looked at when the
    email is not blank. *)
Theorem X11_first_failing_check (u : User) :
  validateUser u =
    if blank (Name u) then Some "name is required"
    else if blank (Email u) then Some "email is required"
    else if negb (Contains (Email u) "@") then Some "invalid email format"
    else if (Age u <? 1) || (150 <? Age u)
         then Some "age must be a positive integer (1-150)"
    else None.
Proof. apply validateUser_firstComplaint. Qed.

(** *** Replies *)

(** X8: every reply of every route has one of two shapes. A success has
    status 200 or 201, [success] true and no error text. A failure has
    status 400 or 404, [success] false, an error text that is not empty, no
    message and no data. In both the field [code] repeats the HTTP
    status. *)
Theorem X8_reply_envelope (req : Request) (st : Store) :
  envelope (handle uni req st).2.
Proof.
  assert (∀ c err, (c = StatusBadRequest ∨ c = StatusNotFound) → err ≠ "" →
                   envelope (failure c err)) as Hfail.
  { intros c err Hc Herr. split; [done|]. right. by split_and!. }
  assert (∀ c d m, (c = StatusOK ∨ c = StatusCreated) →
                   envelope (mkReply c (mkResponse true d m "" c))) as Hok.
  { intros c d m Hc. split; [done|]. left. by split_and!. }
  destruct req as [|idStr|json|idStr json|idStr|name]; cbn [handle].
  - apply Hok. by left.
  - unfold getUserByID. destruct (Atoi idStr) as [id|]; [|by apply Hfail; [left|]].
    destruct (findUserByID (users st) id) as [[idx old]|];
      [apply Hok; by left | by apply Hfail; [right|]].
  - unfold createUser. destruct json as [u|]; [|by apply Hfail; [left|]].
    destruct (validateUser u) eqn:Hv.
    + apply Hfail; [by left | by eapply validateUser_message].
    + apply Hok. by right.
  - unfold updateUser. destruct (Atoi idStr) as [id|]; [|by apply Hfail; [left|]].
    destruct (findUserByID (users st) id) as [[idx old]|]; [|by apply Hfail; [right|]].
    destruct json as [u|]; [|by apply Hfail; [left|]].
    destruct (validateUser u) eqn:Hv.
    + apply Hfail; [by left | by eapply validateUser_message].
    + apply Hok. by left.
  - unfold deleteUser. destruct (Atoi idStr) as [id|]; [|by apply Hfail; [left|]].
    destruct (findUserByID (users st) id) as [[idx old]|];
      [apply Hok; by left | by apply Hfail; [right|]].
  - unfold searchUsers. destruct (decide (name = ""));
      [by apply Hfail; [left|] | apply Hok; by left].
Qed.

(** X15: a path identifier that [strconv.Atoi] does not parse (empty, not
    decimal, or outside [int]) is answered 400 before any lookup: lookup
    and deletion answer 400 exactly for such identifiers, never 404, and
    an update with such an identifier answers 400 whatever its body; the
    store is left as it was. *)
Theorem X15_malformed_id (st : Store) (idStr : string) :
  (status (getUserByID idStr st).2 = StatusBadRequest ↔ Atoi idStr = None) ∧
  (status (deleteUser idStr st).2 = StatusBadRequest ↔ Atoi idStr = None) ∧
  (Atoi idStr = None →
   deleteUser idStr st = (st, failure StatusBadRequest "Invalid ID format.") ∧
   ∀ json,
     updateUser idStr json st
     = (st, failure StatusBadRequest "Invalid ID format.")).
Proof.
  unfold getUserByID, deleteUser, updateUser.
  destruct (Atoi idStr) as [id|]; [|done].
  by destruct (findUserByID (users st) id) as [[??]|].
Qed.

(** *** What a request does to the store *)

Lemma handle_created (req : Request) (st : Store) :
  status (handle uni req st).2 = StatusCreated ↔
  ∃ u, req = Create (Some u) ∧ validateUser u = None.
Proof.
  split.
  - destruct req as [|idStr|json|idStr json|idStr|name]; cbn [handle].
    + done.
    + unfold getUserByID. destruct (Atoi idStr) as [id|]; [|done].
      by destruct (findUserByID (users st) id) as [[idx old]|].
    + unfold createUser. destruct json as [u|]; [|done].
      destruct (validateUser u) eqn:Hv; [done|]. intros _. by exists u.
    + unfold updateUser. destruct (Atoi idStr) as [id|]; [|done].
      destruct (findUserByID (users st) id) as [[idx old]|]; [|done].
      destruct json as [u|]; [|done]. by destruct (validateUser u).
    + unfold deleteUser. destruct (Atoi idStr) as [id|]; [|done].
      by destruct (findUserByID (users st) id) as [[idx old]|].
    + unfold searchUsers. by destruct (decide (name = "")).
  - intros (u & -> & Hv). cbn [handle]. unfold createUser. by rewrite Hv.
Qed.

(** X9: what a request does to the size of the store and to the counter
    can be read off its reply. The counter is incremented exactly by the
    requests answered 201, which also make the list one longer; a deletion
    answered 200 makes the list one shorter; every other request, updates
    included, keeps the length; and the three [GET] routes return the store
    untouched whatever they answer. *)
Theorem X9_store_accounting (req : Request) (st : Store) :
  (isRead req = true → (handle uni req st).1 = st) ∧
  nextID (handle uni req st).1
    = (if decide (status (handle uni req st).2 = StatusCreated)
       then wrapInt (nextID st + 1) else nextID st) ∧
  length (users (handle uni req st).1)
    = (if decide (status (handle uni req st).2 = StatusCreated)
       then S (length (users st))
       else if isDelete req && bool_decide (status (handle uni req st).2 = StatusOK)
       then Nat.pred (length (users st))
       else length (users st)).
Proof.
  destruct req as [|idStr|json|idStr json|idStr|name]; cbn [handle isRead isDelete].
  - done.
  - unfold getUserByID. destruct (Atoi idStr) as [id|]; [|done].
    by destruct (findUserByID (users st) id) as [[idx old]|].
  - unfold createUser. destruct json as [u|]; [|done].
    destruct (validateUser u); [done|]. cbn [fst snd status users nextID].
    rewrite decide_True by done. split_and!; [done | done |].
    rewrite length_app. simpl. lia.
  - unfold updateUser. destruct (Atoi idStr) as [id|]; [|done].
    destruct (findUserByID (users st) id) as [[idx old]|]; [|done].
    destruct json as [u|]; [|done]. destruct (validateUser u); [done|].
    cbn [fst snd status users nextID]. rewrite decide_False by done.
    split_and!; [done | done |]. by rewrite length_insert.
  - destruct (decide (status (deleteUser idStr st).2 = StatusOK)) as [Hok | Hno].
    + assert (status (deleteUser idStr st).2 ≠ StatusCreated) as Hnc
        by (rewrite Hok; done).
      rewrite !decide_False by done.
      rewrite bool_decide_eq_true_2 by done.
      apply deleteUser_ok in Hok
        as (id & pre & old & post & Hid & Hus & Hold & Hpre & ->).
      cbn [users nextID andb]. split_and!; [done | done |].
      rewrite Hus, !length_app. cbn [length]. lia.
    + rewrite deleteUser_failed by done.
      rewrite bool_decide_eq_false_2 by done.
      destruct (decide (status (deleteUser idStr st).2 = StatusCreated)) as [Hc | ?];
        [|done].
      exfalso. revert Hc. unfold deleteUser. destruct (Atoi idStr) as [id|]; [|done].
      by destruct (findUserByID (users st) id) as [[idx old]|].
  - unfold searchUsers. by destruct (decide (name = "")).
Qed.

(** X10: in a store with distinct identifiers, a request leaves the
    identifiers distinct exactly when it is not answered 201 or the value
    of [nextID] is carried by no stored user. Lookups, searches, updates
    and deletions never introduce a duplicate; a creation does so exactly
    when the counter holds an identifier in use. *)
Theorem X10_distinct_ids_step (req : Request) (st : Store) :
  NoDup (ids st) →
  (NoDup (ids (handle uni req st).1) ↔
   status (handle uni req st).2 ≠ StatusCreated ∨ nextID st ∉ ids st).
Proof.
  intros Hnd.
  destruct (handle_effect uni req st)
    as [(u & -> & Hv & _ & Hst) | (Hnone & _ & Hlist)].
  - rewrite Hst. unfold ids. cbn [users]. rewrite fmap_app, NoDup_app.
    cbn [fmap list_fmap ID withID]. split.
    + intros (_ & Hfresh & _). right. intros Hin. apply (Hfresh _ Hin). by left.
    + intros [Hno | Hfresh].
      * destruct Hno. apply handle_created. by exists u.
      * split_and!; [done | | apply NoDup_singleton].
        intros x Hx ->%list_elem_of_singleton. by apply Hfresh.
  - split.
    + intros _. left. intros (u & -> & Hv)%handle_created.
      revert Hnone. cbn [handle]. by rewrite createUser_valid by done.
    + intros _. destruct Hlist as [-> | [i ->]]; [done|].
      by apply (sublist_NoDup _ (ids st)), sublist_delete.
Qed.

(** *** Invariants of the store along a run *)

(** Every request keeps the stored users well formed: what is appended or
    written in place has passed [validateUser]. *)
Lemma handle_wellFormed (req : Request) (st : Store) :
  Forall wellFormed (users st) →
  Forall wellFormed (users (handle uni req st).1).
Proof.
  intros Hst.
  destruct req as [|idStr|json|idStr json|idStr|name]; cbn [handle].
  - done.
  - unfold getUserByID. destruct (Atoi idStr) as [id|]; [|done].
    by destruct (findUserByID (users st) id) as [[idx old]|].
  - unfold createUser. destruct json as [u|]; [|done].
    destruct (validateUser u) eqn:Hv; [done|]. cbn [fst users].
    apply Forall_app. split; [done|]. apply Forall_singleton.
    by apply validateUser_wellFormed.
  - unfold updateUser. destruct (Atoi idStr) as [id|]; [|done].
    destruct (findUserByID (users st) id) as [[idx old]|]; [|done].
    destruct json as [u|]; [|done].
    destruct (validateUser u) eqn:Hv; [done|]. cbn [fst users].
    apply Forall_insert; [done|]. by apply validateUser_wellFormed.
  - unfold deleteUser. destruct (Atoi idStr) as [id|]; [|done].
    destruct (findUserByID (users st) id) as [[idx old]|]; [|done].
    cbn [fst users]. apply Forall_app. split; [by apply Forall_take | by apply Forall_drop].
  - unfold searchUsers. by destruct (decide (name = "")).
Qed.

(** X1: every user in every store reached from the seeded one is well
    formed: its name and its email hold more than white space, the email
    holds an ["@"], and the age lies between 1 and 150. No sequence of
    requests stores a user that [validateUser] would turn down. *)
Theorem X1_stored_users_wellFormed (h : list Z) (st : Store) :
  reachable uni h st → Forall wellFormed (users st).
Proof.
  induction 1 as [|h st req Hreach IH].
  - repeat (apply Forall_cons; split; [by split_and!; try lia|]). apply Forall_nil_2.
  - by apply handle_wellFormed.
Qed.

Lemma StronglySorted_delete {A} (R : relation A) (l : list A) : ∀ i,
  StronglySorted R l → StronglySorted R (delete i l).
Proof.
  induction l as [|x l IH]; intros i Hs; [by destruct i|].
  apply StronglySorted_inv in Hs as [Hl Hx].
  destruct i as [|i]; [done|]. cbn [delete list_delete].
  constructor; [by apply IH | by apply Forall_delete].
Qed.

(** As long as the counter has not reached the greatest [int]: it stands
    at 4 plus the number of users created, and the identifiers in the list
    are in strictly ascending order, all between 1 and the counter. *)
Lemma reachable_ascending (h : list Z) (st : Store) :
  reachable uni h st →
  Z.of_nat (length h) < 2 ^ (intSize - 1) - 4 →
  nextID st = 4 + Z.of_nat (length h) ∧
  StronglySorted Z.lt (ids st) ∧
  Forall (λ i, 1 ≤ i < nextID st) (ids st).
Proof.
  unfold intSize. induction 1 as [|h st req Hreach IH]; intros Hn.
  - split_and!; [done | |].
    + repeat (constructor; [|repeat (constructor; [done|]); constructor]).
      constructor.
    + repeat (apply Forall_cons; split; [by simpl|]). apply Forall_nil_2.
  - destruct (handle_effect uni req st)
      as [(u & -> & Hv & Has & Hst) | (Hnone & Hkeep & Hlist)].
    + rewrite Has in Hn |- *. rewrite Hst.
      change (option_list (Some (nextID st)) ++ h) with (nextID st :: h) in *.
      cbn [length] in *. destruct IH as (Hnext & Hsorted & Hrange); [lia|].
      assert (wrapInt (nextID st + 1) = nextID st + 1) as Hwrap.
      { apply wrapInt_inRange. unfold inRange, minInt, maxInt, intSize. lia. }
      cbn [nextID]. rewrite Hwrap. unfold ids in *. cbn [users].
      rewrite fmap_app. cbn [fmap list_fmap ID withID]. split_and!; [lia | |].
      * apply StronglySorted_app. split_and!; [|done|repeat constructor].
        intros x1 x2 Hx1 ->%list_elem_of_singleton.
        rewrite Forall_forall in Hrange. apply (Hrange x1 Hx1).
      * apply Forall_app. split.
        -- eapply Forall_impl; [done|]. intros i Hi. cbv beta in *. lia.
        -- apply Forall_singleton. rewrite Forall_forall in Hrange.
           cbv beta. lia.
    + rewrite Hnone in Hn |- *. change (option_list None ++ h) with h in *.
      destruct IH as (Hnext & Hsorted & Hrange); [done|]. rewrite Hkeep.
      split_and!; [done | |]; destruct Hlist as [-> | [i ->]]; try done.
      * by apply StronglySorted_delete.
      * by apply Forall_delete.
Qed.

(** X2: as long as fewer than [2 ^ 63 - 4] users have been created,
    [GET /users] answers 200 with all the stored users, none left out or
    added, leaves the store as it is, and lists the users in strictly
    ascending order of identifier, which is also the order of their
    creation. *)
Theorem X2_users_listed_by_id (h : list Z) (st : Store) :
  reachable uni h st →
  Z.of_nat (length h) < 2 ^ (intSize - 1) - 4 →
  (getAllUsers st).1 = st ∧
  status (getAllUsers st).2 = StatusOK ∧
  Data (body (getAllUsers st).2) = sliceAny (Some (users st)) ∧
  returned (getAllUsers st).2 = users st ∧
  StronglySorted Z.lt (ID <$> returned (getAllUsers st).2).
Proof.
  intros Hreach Hn. split_and!; [done | done | done | done |].
  by destruct (reachable_ascending h st Hreach Hn) as (_ & ? & _).
Qed.

(** X3: as long as fewer than [2 ^ 63 - 4] users have been created, the
    counter stands at 4 plus the number of users created so far, whatever
    was deleted in between, and every stored identifier lies between 1 and
    the counter: no identifier is handed out twice, not even that of a
    deleted user, seeded or created. *)
Theorem X3_counter_counts_creations (h : list Z) (st : Store) :
  reachable uni h st →
  Z.of_nat (length h) < 2 ^ (intSize - 1) - 4 →
  nextID st = 4 + Z.of_nat (length h) ∧
  Forall (λ i, 1 ≤ i < nextID st) (ids st).
Proof.
  intros Hreach Hn.
  by destruct (reachable_ascending h st Hreach Hn) as (? & _ & ?).
Qed.

(** *** Search *)

Lemma app_nil_r_str s : s +:+ "" = s.
Proof. induction s as [|c s IH]; [done|]. by rewrite app_String, IH. Qed.

Lemma Contains_refl s : Contains s s = true.
Proof.
  apply Contains_spec. exists "", "". by rewrite app_Empty, app_nil_r_str.
Qed.

Lemma mapBytes_lowerByte_id s : hasUpper s = false → mapBytes lowerByte s = s.
Proof.
  induction s as [|c s IH]; [done|]. cbn [hasUpper mapBytes].
  intros [Hc Hs]%orb_false_iff. rewrite IH by done. unfold lowerByte. by rewrite Hc.
Qed.

(** On a pure ASCII string [strings.ToLower] lowers byte by byte and
    consults no table. *)
Lemma ToLower_ascii s : isASCII s = true → ToLower uni s = mapBytes lowerByte s.
Proof.
  intros Hs. unfold ToLower. rewrite Hs.
  destruct (hasUpper s) eqn:Hup; [done|]. cbn [negb].
  by rewrite mapBytes_lowerByte_id.
Qed.

Lemma returned_search q st :
  q ≠ "" →
  returned (searchUsers uni q st).2
  = filter (λ u, nameMatches uni (ToLower uni q) u = true) (users st).
Proof.
  intros Hq. unfold searchUsers. rewrite decide_False by done.
  unfold returned. cbn [snd body Data]. by rewrite search_loop.
Qed.

(** X13: a search for the full name of a stored user, as it is stored,
    returns that user (the name being non-empty), whatever the Unicode
    tables. *)
Theorem X13_search_own_name (st : Store) (u : User) :
  u ∈ users st → Name u ≠ "" →
  u ∈ returned (searchUsers uni (Name u) st).2.
Proof.
  intros Hu Hname. rewrite returned_search by done.
  apply list_elem_of_filter. split; [|done].
  unfold nameMatches. apply Contains_refl.
Qed.

(** X14: for a pure ASCII query and a stored user with a pure ASCII name,
    the search returns the user exactly when the query occurs in the name
    once the letters A..Z of both are replaced by a..z; no Unicode table
    takes part, and the letter case of the query and of the name is
    immaterial. *)
Theorem X14_ascii_search (st : Store) (q : string) (u : User) :
  q ≠ "" → isASCII q = true → isASCII (Name u) = true → u ∈ users st →
  (u ∈ returned (searchUsers uni q st).2 ↔
   ∃ pre post,
     mapBytes lowerByte (Name u) = pre +:+ mapBytes lowerByte q +:+ post).
Proof.
  intros Hq Hqa Hna Hu. rewrite returned_search by done.
  rewrite list_elem_of_filter. unfold nameMatches.
  rewrite !ToLower_ascii by done. rewrite Contains_spec.
  split; [by intros [? _] | by intros ?].
Qed.

(** *** Creation *)

(** X17: a [POST /users] answered 201 appends exactly one record at the
    end of the list, made of the name, email and age of the payload under
    the value of the counter, and answers with that record; the records
    already stored and their order are untouched. Answered otherwise, it
    leaves the store as it was. *)
Theorem X17_create_frame (st : Store) (json : option User) :
  (status (createUser json st).2 = StatusCreated →
   ∃ u, json = Some u ∧
        users (createUser json st).1
        = users st ++ [mkUser (nextID st) (Name u) (Email u) (Age u)] ∧
        Data (body (createUser json st).2)
        = userAny (mkUser (nextID st) (Name u) (Email u) (Age u)) ∧
        nextID (createUser json st).1 = wrapInt (nextID st + 1)) ∧
  (status (createUser json st).2 ≠ StatusCreated →
   (createUser json st).1 = st).
Proof.
  unfold createUser. destruct json as [u|]; [|done].
  destruct (validateUser u); [done|]. split; [|done]. intros _. by exists u.
Qed.

(** X18: creating a user and deleting it again gives back the list of
    users as it was, but not the identifier: the counter stays
    incremented. This holds whenever the value of the counter is carried
    by no stored user. *)
Theorem X18_create_then_delete (st : Store) (u : User) (idStr : string) :
  validateUser u = None →
  nextID st ∉ ids st →
  Atoi idStr = Some (nextID st) →
  deleteUser idStr (createUser (Some u) st).1
  = (mkStore (users st) (wrapInt (nextID st + 1)),
     mkReply StatusOK
       (mkResponse true nilAny "User deleted successfully." "" StatusOK)).
Proof.
  intros Hv Hfresh Hid. rewrite createUser_valid by done. cbn [fst].
  unfold deleteUser. rewrite Hid. cbn [users nextID].
  assert (findUserByID (users st ++ [withID u (nextID st)]) (nextID st)
          = Some (length (users st), withID u (nextID st))) as ->.
  { unfold findUserByID. rewrite list_find_app_r.
    - simpl. rewrite decide_True by done. simpl. do 2 f_equal; lia.
    - apply findUserByID_None. intros v Hv' Heq. apply Hfresh.
      rewrite <- Heq. by apply list_elem_of_fmap_2. }
  rewrite take_app_length.
  rewrite drop_ge by (rewrite length_app; simpl; lia).
  by rewrite app_nil_r.
Qed.

(** X19: the field [data] is left out of the JSON body exactly in the
    failures (400 and 404) and in the reply to a successful deletion;
    every other success carries it. *)
Theorem X19_data_presence (req : Request) (st : Store) :
  encodeData (Data (body (handle uni req st).2)) = None ↔
  status (handle uni req st).2 = StatusBadRequest ∨
  status (handle uni req st).2 = StatusNotFound ∨
  (isDelete req = true ∧ status (handle uni req st).2 = StatusOK).
Proof.
  assert (∀ A B C : Prop, ¬ A → ¬ B → ¬ C → (False ↔ A ∨ B ∨ C)) as Hnone
    by (intros; tauto).
  destruct req as [|idStr|json|idStr json|idStr|name]; cbn [handle isDelete].
  - split; [done | by intros [? | [? | [? _]]]].
  - unfold getUserByID. destruct (Atoi idStr) as [id|]; [|by split; [left|]].
    destruct (findUserByID (users st) id) as [[idx old]|].
    + split; [done | by intros [? | [? | [? _]]]].
    + split; [by right; left | done].
  - unfold createUser. destruct json as [u|]; [|by split; [left|]].
    destruct (validateUser u); [by split; [left|]|].
    split; [done | by intros [? | [? | [? _]]]].
  - destruct (decide (status (updateUser idStr json st).2 = StatusOK)) as [Hok | Hno].
    + rewrite Hok.
      apply updateUser_ok in Hok
        as (id & u & pre & old & post & Hid & -> & Hv & Hus & Hold & Hpre & ->).
      split; [done | by intros [? | [? | [? _]]]].
    + revert Hno. unfold updateUser. destruct (Atoi idStr) as [id|]; [|by split; [left|]].
      destruct (findUserByID (users st) id) as [[idx old]|];
        [|by split; [right; left|]].
      destruct json as [u|]; [|by split; [left|]].
      by destruct (validateUser u); [split; [left|]|].
  - unfold deleteUser. destruct (Atoi idStr) as [id|]; [|by split; [left|]].
    destruct (findUserByID (users st) id) as [[idx old]|].
    + split; [by right; right | done].
    + split; [by right; left | done].
  - unfold searchUsers. destruct (decide (name = "")); [by split; [left|]|].
    cbn [snd body Data status].
    destruct (foldl _ _ _); (split; [done | by intros [? | [? | [? _]]]]).
Qed.

End Coverage.

(** ** The further properties at work *)

(** X1 at work: the store with Ann added. *)
Lemma X1_stored_users_wellFormed_witness :
  Forall wellFormed (users storeWithAnn).
Proof.
  apply (X1_stored_users_wellFormed asciiOnly [4] storeWithAnn).
  apply reachable_storeWithAnn.
Defined.

(** X2 at work: the store with Ann added lists 1, 2, 3, 4. *)
Lemma X2_users_listed_by_id_witness :
  (getAllUsers storeWithAnn).1 = storeWithAnn ∧
  status (getAllUsers storeWithAnn).2 = StatusOK ∧
  Data (body (getAllUsers storeWithAnn).2)
    = sliceAny (Some (users storeWithAnn)) ∧
  returned (getAllUsers storeWithAnn).2 = users storeWithAnn ∧
  StronglySorted Z.lt (ID <$> returned (getAllUsers storeWithAnn).2).
Proof.
  apply (X2_users_listed_by_id asciiOnly [4] storeWithAnn).
  - apply reachable_storeWithAnn.
  - vm_compute. reflexivity.
Defined.

(** X3 at work: after one creation the counter stands at 5. *)
Lemma X3_counter_counts_creations_witness :
  nextID storeWithAnn = 4 + Z.of_nat (length [4]) ∧
  Forall (λ i, 1 ≤ i < nextID storeWithAnn) (ids storeWithAnn).
Proof.
  apply (X3_counter_counts_creations asciiOnly [4] storeWithAnn).
  - apply reachable_storeWithAnn.
  - vm_compute. reflexivity.
Defined.

(** X4 at work: Jane is replaced by Ann and read back. *)
Lemma X4_update_then_get_witness :
  ∃ id u,
    Atoi "2" = Some id ∧ Some somePayload = Some u ∧
    getUserByID "2" (updateUser "2" (Some somePayload) initialStore).1
    = ((updateUser "2" (Some somePayload) initialStore).1,
       okData (userPtrAny (mkUser id (Name u) (Email u) (Age u)))).
Proof.
  apply (X4_update_then_get initialStore "2" (Some somePayload)). reflexivity.
Defined.

(** X5 at work: Jane is deleted from the initial store. *)
Lemma X5_delete_then_not_found_witness :
  ∃ id,
    Atoi "2" = Some id ∧
    absent id (deleteUser "2" initialStore).1 ∧
    status (getUserByID "2" (deleteUser "2" initialStore).1).2
      = StatusNotFound ∧
    status (updateUser "2" (Some somePayload) (deleteUser "2" initialStore).1).2
      = StatusNotFound ∧
    status (deleteUser "2" (deleteUser "2" initialStore).1).2 = StatusNotFound.
Proof.
  apply (X5_delete_then_not_found initialStore "2" (Some somePayload)).
  - compute_done.
  - reflexivity.
Defined.

(** X6 at work: Bob is read while Jane is updated or deleted. *)
Lemma X6_other_ids_untouched_witness :
  (getUserByID "3" (updateUser "2" (Some somePayload) initialStore).1).2
    = (getUserByID "3" initialStore).2 ∧
  (getUserByID "3" (deleteUser "2" initialStore).1).2
    = (getUserByID "3" initialStore).2.
Proof.
  apply (X6_other_ids_untouched initialStore "2" "3" 2 3 (Some somePayload));
    (reflexivity || discriminate).
Defined.

(** X7 at work: John is read after Ann is created. *)
Lemma X7_create_keeps_lookups_witness :
  (getUserByID "1" (createUser (Some somePayload) initialStore).1).2
  = (getUserByID "1" initialStore).2.
Proof.
  apply (X7_create_keeps_lookups initialStore (Some somePayload) "1" 1).
  - reflexivity.
  - right. discriminate.
Defined.

(** X10 at work: creating Ann on the initial store. *)
Lemma X10_distinct_ids_step_witness :
  NoDup (ids (handle asciiOnly (Create (Some somePayload)) initialStore).1) ↔
  status (handle asciiOnly (Create (Some somePayload)) initialStore).2
    ≠ StatusCreated ∨
  nextID initialStore ∉ ids initialStore.
Proof.
  apply (X10_distinct_ids_step asciiOnly (Create (Some somePayload)) initialStore).
  compute_done.
Defined.

(** X13 at work: the search for ["Bob Wilson"]. *)
Lemma X13_search_own_name_witness :
  mkUser 3 "Bob Wilson" "bob@example.com" 35
  ∈ returned (searchUsers asciiOnly "Bob Wilson" initialStore).2.
Proof.
  apply (X13_search_own_name asciiOnly initialStore
           (mkUser 3 "Bob Wilson" "bob@example.com" 35)).
  - do 2 right. left.
  - discriminate.
Defined.

(** X14 at work: the search for ["DOE"] and John Doe. *)
Lemma X14_ascii_search_witness :
  mkUser 1 "John Doe" "john@example.com" 30
  ∈ returned (searchUsers asciiOnly "DOE" initialStore).2 ↔
  ∃ pre post,
    mapBytes lowerByte "John Doe" = pre +:+ mapBytes lowerByte "DOE" +:+ post.
Proof.
  apply (X14_ascii_search asciiOnly initialStore "DOE"
           (mkUser 1 "John Doe" "john@example.com" 30)).
  - discriminate.
  - reflexivity.
  - reflexivity.
  - left.
Defined.

(** X16 at work: Bob is read from the initial store. *)
Lemma X16_stored_user_is_found_witness :
  getUserByID "3" initialStore
  = (initialStore,
     okData (userPtrAny (mkUser 3 "Bob Wilson" "bob@example.com" 35))).
Proof.
  apply (X16_stored_user_is_found initialStore
           (mkUser 3 "Bob Wilson" "bob@example.com" 35) "3").
  - compute_done.
  - do 2 right. left.
  - reflexivity.
Defined.

(** X18 at work: Ann is created on the initial store and deleted again. *)
Lemma X18_create_then_delete_witness :
  deleteUser "4" (createUser (Some somePayload) initialStore).1
  = (mkStore (users initialStore) (wrapInt (nextID initialStore + 1)),
     mkReply StatusOK
       (mkResponse true nilAny "User deleted successfully." "" StatusOK)).
Proof.
  apply (X18_create_then_delete initialStore somePayload "4").
  - reflexivity.
  - compute_done.
  - reflexivity.
Defined.
